(** * phonon-client: the remote pairing client and the BTC validator

    A shallow embedding of [remote/client.go] (the message-dispatch client
    that relays identification, certificate exchange, card pairing and
    phonon transfer over one duplex stream) and of [validator/btc.go]
    (the balance check of a bitcoin phonon), with the properties of the
    specification stated and settled over the embedding. *)

From Stdlib Require Import ZArith List String Bool Lia.
From Stdlib Require Import Strings.Byte.
Import ListNotations.
Open Scope Z_scope.

(** ** Go values shared by both packages *)

Definition bytes : Type := list byte.

(** Go's [error] interface.  [ErrTimeout] is the package variable of
    [remote/client.go] (one fixed value, compared by identity); every other
    error value is represented by its text. *)
Inductive error : Type :=
| ErrTimeout
| errors_New (text : string).

Definition Error (e : error) : string :=
  match e with
  | ErrTimeout => "Timeout"%string
  | errors_New text => text
  end.

(** [time.Duration] counts nanoseconds. *)
Definition Duration : Type := Z.
Definition Second : Duration := 1000000000.
Arguments Second : simpl never.

Module Remote.

(** ** The wire envelope *)

(** Modelled from the spec: the message name constants ([RequestCertificate],
    ...) are declared in a file of package [remote] that is not part of the
    sources at hand.  Go rejects a [switch] with two equal constant cases,
    so the names dispatched on by [process] are pairwise distinct; a name
    outside the enumeration is [UnknownName]. *)
Inductive MessageName : Type :=
| RequestCertificate
| ResponseCertificate
| RequestIdentify
| ResponseIdentify
| MessageError
| MessageIdentifiedWithServer
| MessageConnectedToCard
| RequestCardPair1
| ResponseCardPair1
| RequestFinalizeCardPair
| ResponseFinalizeCardPair
| MessagePhononAck
| RequestReceivePhonon
| RequestConnectCard2Card
| UnknownName (s : string).

Record Message : Type := mkMessage { Name : MessageName; Payload : bytes }.

(** What the gob decoder of [HandleIncoming] yields for one read of the
    stream: a message, or a decode error. *)
Inductive Frame : Type :=
| Decoded (m : Message)
| Malformed.

(** ** Channels of capacity one *)

(** Every channel of the connection is made with capacity 1: it is empty or
    holds one value.  A send on a full channel blocks, a receive on an empty
    one blocks. *)
Definition Chan (T : Type) : Type := option T.

Definition chan_put {T} (ch : Chan T) (v : T) : option (Chan T) :=
  match ch with
  | None => Some (Some v)
  | Some _ => None
  end.

Definition chan_take {T} (ch : Chan T) : option (T * Chan T) :=
  match ch with
  | Some v => Some (v, None)
  | None => None
  end.

(** ** logrus *)

Inductive Level : Type := LError | LInfo | LDebug.
Definition LogLine : Type := (Level * list string)%type.

(** ** The stream *)

(** [h2conn.Conn] as the client sees it: whether [Close] was called, and the
    envelopes the encoder has written to it. *)
Record Conn : Type := mkConn { closed : bool; written : list Message }.

(** ** Sequencing *)

(** Straight-line Go code that reads and writes a state. *)
Definition State (St A : Type) : Type := St -> A * St.
Definition ret {St A} (a : A) : State St A := fun w => (a, w).
Definition bind {St A B} (m : State St A) (k : A -> State St B) : State St B :=
  fun w => let (a, w') := m w in k a w'.

Notation "x <- m ;; k" := (bind m (fun x => k))
  (at level 61, m at next level, right associativity).
Notation "m ;; k" := (bind m (fun _ => k))
  (at level 61, right associativity).

(** [util.ECDSASignature]: the fields [R] and [S] of the source. *)
Record ECDSASignature : Type := mkSig { sig_R : Z; sig_S : Z }.

(** ** The collaborators *)

(** What lives outside [remote/client.go]: the hardware session of package
    [card] (its state [HW] and the methods the client calls), the
    certificates of package [cert], [crypto/ecdsa] and [encoding/gob]. *)
Class Collaborators : Type := {
  HW : Type;
  PublicKey : Type;
  CardCertificate : Type;
  session_GetCertificate : HW -> (CardCertificate * option error) * HW;
  session_IdentifyCard :
    HW -> bytes -> (PublicKey * ECDSASignature * option error) * HW;
  session_CardPair : HW -> bytes -> (bytes * option error) * HW;
  session_FinalizeCardPair : HW -> bytes -> option error * HW;
  session_ReceivePhonons : HW -> bytes -> option error * HW;
  cert_Serialize : CardCertificate -> bytes;
  cert_ParseRawCardCertificate : bytes -> error + CardCertificate;
  card_ParseIdentifyCardResponse :
    bytes -> error + (PublicKey * ECDSASignature);
  ecdsa_Verify : PublicKey -> bytes -> Z -> Z -> bool;
  gob_Encode : ECDSASignature -> bytes
}.

Section Client.
Context {E : Collaborators}.

(** [card.Session]: the opaque hardware state behind its methods, and the
    field [RemoteCard], which holds the connection (a pointer, here its
    address) the session uses as its counterparty. *)
Record Session : Type := mkSession { hw : HW; RemoteCard : option nat }.

(** [RemoteConnection].  [self] is the address of the struct ([c] itself in
    the source); the [encoder] field is the gob encoder bound to [conn] and
    is folded into it. *)
Record RemoteConnection : Type := mkRC {
  self : nat;
  conn : Conn;
  remoteCertificate : option CardCertificate;
  session : Session;
  identifiedWithServerChan : Chan bool;
  identifiedWithServer : bool;
  counterpartyNonce : bytes;
  verified : bool;
  connectedToCardChan : Chan bool;
  pairFinalized : bool;
  remoteCertificateChan : Chan CardCertificate;
  remoteIdentityChan : Chan bytes;
  cardPair1DataChan : Chan bytes;
  finalizeCardPairDataChan : Chan bytes;
  phononAckChan : Chan bool
}.

Definition set_conn v (r : RemoteConnection) : RemoteConnection :=
  mkRC (self r) v (remoteCertificate r) (session r)
    (identifiedWithServerChan r) (identifiedWithServer r)
    (counterpartyNonce r) (verified r) (connectedToCardChan r)
    (pairFinalized r) (remoteCertificateChan r) (remoteIdentityChan r)
    (cardPair1DataChan r) (finalizeCardPairDataChan r) (phononAckChan r).

Definition set_remoteCertificate v (r : RemoteConnection) : RemoteConnection :=
  mkRC (self r) (conn r) v (session r)
    (identifiedWithServerChan r) (identifiedWithServer r)
    (counterpartyNonce r) (verified r) (connectedToCardChan r)
    (pairFinalized r) (remoteCertificateChan r) (remoteIdentityChan r)
    (cardPair1DataChan r) (finalizeCardPairDataChan r) (phononAckChan r).

Definition set_session v (r : RemoteConnection) : RemoteConnection :=
  mkRC (self r) (conn r) (remoteCertificate r) v
    (identifiedWithServerChan r) (identifiedWithServer r)
    (counterpartyNonce r) (verified r) (connectedToCardChan r)
    (pairFinalized r) (remoteCertificateChan r) (remoteIdentityChan r)
    (cardPair1DataChan r) (finalizeCardPairDataChan r) (phononAckChan r).

Definition set_identifiedWithServerChan v (r : RemoteConnection) : RemoteConnection :=
  mkRC (self r) (conn r) (remoteCertificate r) (session r)
    v (identifiedWithServer r)
    (counterpartyNonce r) (verified r) (connectedToCardChan r)
    (pairFinalized r) (remoteCertificateChan r) (remoteIdentityChan r)
    (cardPair1DataChan r) (finalizeCardPairDataChan r) (phononAckChan r).

Definition set_identifiedWithServer v (r : RemoteConnection) : RemoteConnection :=
  mkRC (self r) (conn r) (remoteCertificate r) (session r)
    (identifiedWithServerChan r) v
    (counterpartyNonce r) (verified r) (connectedToCardChan r)
    (pairFinalized r) (remoteCertificateChan r) (remoteIdentityChan r)
    (cardPair1DataChan r) (finalizeCardPairDataChan r) (phononAckChan r).

Definition set_counterpartyNonce v (r : RemoteConnection) : RemoteConnection :=
  mkRC (self r) (conn r) (remoteCertificate r) (session r)
    (identifiedWithServerChan r) (identifiedWithServer r)
    v (verified r) (connectedToCardChan r)
    (pairFinalized r) (remoteCertificateChan r) (remoteIdentityChan r)
    (cardPair1DataChan r) (finalizeCardPairDataChan r) (phononAckChan r).

Definition set_verified v (r : RemoteConnection) : RemoteConnection :=
  mkRC (self r) (conn r) (remoteCertificate r) (session r)
    (identifiedWithServerChan r) (identifiedWithServer r)
    (counterpartyNonce r) v (connectedToCardChan r)
    (pairFinalized r) (remoteCertificateChan r) (remoteIdentityChan r)
    (cardPair1DataChan r) (finalizeCardPairDataChan r) (phononAckChan r).

Definition set_connectedToCardChan v (r : RemoteConnection) : RemoteConnection :=
  mkRC (self r) (conn r) (remoteCertificate r) (session r)
    (identifiedWithServerChan r) (identifiedWithServer r)
    (counterpartyNonce r) (verified r) v
    (pairFinalized r) (remoteCertificateChan r) (remoteIdentityChan r)
    (cardPair1DataChan r) (finalizeCardPairDataChan r) (phononAckChan r).

Definition set_pairFinalized v (r : RemoteConnection) : RemoteConnection :=
  mkRC (self r) (conn r) (remoteCertificate r) (session r)
    (identifiedWithServerChan r) (identifiedWithServer r)
    (counterpartyNonce r) (verified r) (connectedToCardChan r)
    v (remoteCertificateChan r) (remoteIdentityChan r)
    (cardPair1DataChan r) (finalizeCardPairDataChan r) (phononAckChan r).

Definition set_remoteCertificateChan v (r : RemoteConnection) : RemoteConnection :=
  mkRC (self r) (conn r) (remoteCertificate r) (session r)
    (identifiedWithServerChan r) (identifiedWithServer r)
    (counterpartyNonce r) (verified r) (connectedToCardChan r)
    (pairFinalized r) v (remoteIdentityChan r)
    (cardPair1DataChan r) (finalizeCardPairDataChan r) (phononAckChan r).

Definition set_remoteIdentityChan v (r : RemoteConnection) : RemoteConnection :=
  mkRC (self r) (conn r) (remoteCertificate r) (session r)
    (identifiedWithServerChan r) (identifiedWithServer r)
    (counterpartyNonce r) (verified r) (connectedToCardChan r)
    (pairFinalized r) (remoteCertificateChan r) v
    (cardPair1DataChan r) (finalizeCardPairDataChan r) (phononAckChan r).

Definition set_cardPair1DataChan v (r : RemoteConnection) : RemoteConnection :=
  mkRC (self r) (conn r) (remoteCertificate r) (session r)
    (identifiedWithServerChan r) (identifiedWithServer r)
    (counterpartyNonce r) (verified r) (connectedToCardChan r)
    (pairFinalized r) (remoteCertificateChan r) (remoteIdentityChan r)
    v (finalizeCardPairDataChan r) (phononAckChan r).

Definition set_finalizeCardPairDataChan v (r : RemoteConnection) : RemoteConnection :=
  mkRC (self r) (conn r) (remoteCertificate r) (session r)
    (identifiedWithServerChan r) (identifiedWithServer r)
    (counterpartyNonce r) (verified r) (connectedToCardChan r)
    (pairFinalized r) (remoteCertificateChan r) (remoteIdentityChan r)
    (cardPair1DataChan r) v (phononAckChan r).

Definition set_phononAckChan v (r : RemoteConnection) : RemoteConnection :=
  mkRC (self r) (conn r) (remoteCertificate r) (session r)
    (identifiedWithServerChan r) (identifiedWithServer r)
    (counterpartyNonce r) (verified r) (connectedToCardChan r)
    (pairFinalized r) (remoteCertificateChan r) (remoteIdentityChan r)
    (cardPair1DataChan r) (finalizeCardPairDataChan r) v.

(** A channel field of the connection, as a getter and a setter. *)
Record ChanRef (T : Type) : Type := mkChanRef {
  get_chan : RemoteConnection -> Chan T;
  set_chan : Chan T -> RemoteConnection -> RemoteConnection
}.
Arguments get_chan {T} _ _.
Arguments set_chan {T} _ _ _.

Definition identifiedWithServerChan_ : ChanRef bool :=
  mkChanRef _ identifiedWithServerChan set_identifiedWithServerChan.
Definition connectedToCardChan_ : ChanRef bool :=
  mkChanRef _ connectedToCardChan set_connectedToCardChan.
Definition remoteCertificateChan_ : ChanRef CardCertificate :=
  mkChanRef _ remoteCertificateChan set_remoteCertificateChan.
Definition remoteIdentityChan_ : ChanRef bytes :=
  mkChanRef _ remoteIdentityChan set_remoteIdentityChan.
Definition cardPair1DataChan_ : ChanRef bytes :=
  mkChanRef _ cardPair1DataChan set_cardPair1DataChan.
Definition finalizeCardPairDataChan_ : ChanRef bytes :=
  mkChanRef _ finalizeCardPairDataChan set_finalizeCardPairDataChan.
Definition phononAckChan_ : ChanRef bool :=
  mkChanRef _ phononAckChan set_phononAckChan.

(** ** The world a goroutine runs in *)

(** The connection, the clock, the frames the relay will still deliver
    (each with the instant it reaches the decoder, in stream order), and
    the log. *)
Record World : Type := mkWorld {
  c : RemoteConnection;
  now : Z;
  incoming : list (Z * Frame);
  logged : list LogLine
}.

Definition upd_c (f : RemoteConnection -> RemoteConnection) (w : World) : World :=
  mkWorld (f (c w)) (now w) (incoming w) (logged w).
Definition set_now (t : Z) (w : World) : World :=
  mkWorld (c w) t (incoming w) (logged w).
Definition set_incoming (fr : list (Z * Frame)) (w : World) : World :=
  mkWorld (c w) (now w) fr (logged w).

(** Code that cannot block: the state monad over the world. *)
Definition M (A : Type) : Type := State World A.

Definition modify (f : RemoteConnection -> RemoteConnection) : M unit :=
  fun w => (tt, upd_c f w).
Definition read {A} (f : RemoteConnection -> A) : M A :=
  fun w => (f (c w), w).
Definition log (l : Level) (args : list string) : M unit :=
  fun w => (tt, mkWorld (c w) (now w) (incoming w) (logged w ++ [(l, args)])).

(** A call of a method of [c.session]: the hardware state is threaded. *)
Definition call_session {A} (f : HW -> A * HW) : M A :=
  fun w =>
    let s := session (c w) in
    let (a, h) := f (hw s) in
    (a, upd_c (set_session (mkSession h (RemoteCard s))) w).

(** What [c.encoder.Encode] does to the connection: the envelope is
    written to the stream, unless the stream is closed (the encoder's error
    is dropped by [sendMessage]). *)
Definition wrote (messageName : MessageName) (messagePayload : bytes)
    (r : RemoteConnection) : RemoteConnection :=
  if closed (conn r) then r
  else set_conn (mkConn false
         (written (conn r) ++ [mkMessage messageName messagePayload])) r.

(** [sendMessage].  The debug line carries the payload; the text of the
    name constant is not known here. *)
Definition sendMessage (messageName : MessageName) (messagePayload : bytes) : M unit :=
  log LDebug [string_of_list_byte messagePayload] ;;
  modify (wrote messageName messagePayload).

(** A handler of the dispatch loop: [None] when it blocks on a full
    channel.  Every channel send of [process] is the first effect of its
    handler, so a blocked handler has changed nothing yet. *)
Definition H : Type := World -> option World.

Definition run {A} (m : M A) : H := fun w => Some (snd (m w)).
Definition send {T} (ch : ChanRef T) (v : T) : H :=
  fun w =>
    match chan_put (get_chan ch (c w)) v with
    | Some ch' => Some (upd_c (set_chan ch ch') w)
    | None => None
    end.
Definition andThen (h1 h2 : H) : H :=
  fun w => match h1 w with Some w' => h2 w' | None => None end.

(** ** The request processing methods *)

Definition sendCertificate (msg : Message) : M unit :=
  r <- call_session session_GetCertificate ;;
  (match snd r with
   | Some _ => log LError ["Cert doesn't exist"%string]
   | None => ret tt
   end) ;;
  sendMessage ResponseCertificate (cert_Serialize (fst r)).

Definition sendIdentify (msg : Message) : M unit :=
  r <- call_session (fun h => session_IdentifyCard h (Payload msg)) ;;
  match r with
  | (_, sig, Some err) =>
      log LError ["Issue identifying local card"%string; Error err]
  | (_, sig, None) =>
      sendMessage ResponseIdentify (gob_Encode sig)
  end.

Definition processIdentify (msg : Message) : M unit :=
  match card_ParseIdentifyCardResponse (Payload msg) with
  | inl err =>
      log LError ["Issue parsing identify card response"%string; Error err]
  | inr (key, sig) =>
      nonce <- read counterpartyNonce ;;
      if negb (ecdsa_Verify key nonce (sig_R sig) (sig_S sig)) then
        log LError ["Unable to verify card challenge"%string]
      else
        modify (set_verified true)
  end.

Definition processCardPair1 (msg : Message) : M unit :=
  r <- call_session (fun h => session_CardPair h (Payload msg)) ;;
  (match snd r with
   | Some err => log LError ["error with card pair 1"%string; Error err]
   | None => ret tt
   end) ;;
  sendMessage ResponseCardPair1 (fst r).

Definition processFinalizeCardPair (msg : Message) : M unit :=
  err <- call_session (fun h => session_FinalizeCardPair h (Payload msg)) ;;
  match err with
  | Some e =>
      log LError ["Error finalizing Card Pair"%string; Error e] ;;
      sendMessage ResponseFinalizeCardPair (list_byte_of_string (Error e))
  | None =>
      sendMessage ResponseFinalizeCardPair [] ;;
      modify (set_pairFinalized true) ;;
      modify (fun r =>
        set_session (mkSession (hw (session r)) (Some (self r))) r)
  end.

Definition processReceivePhonons (msg : Message) : M unit :=
  err <- call_session (fun h => session_ReceivePhonons h (Payload msg)) ;;
  match err with
  | Some e => log LError [Error e]
  | None => sendMessage MessagePhononAck []
  end.

Definition receiveCertificate (msg : Message) : H :=
  match cert_ParseRawCardCertificate (Payload msg) with
  | inl err => run (log LError [Error err])
  | inr remoteCert =>
      andThen (send remoteCertificateChan_ remoteCert)
              (run (modify (set_remoteCertificate (Some remoteCert))))
  end.

(** ** The dispatch loop *)

Definition process (msg : Message) : H :=
  match Name msg with
  | RequestCertificate => run (sendCertificate msg)
  | ResponseCertificate => receiveCertificate msg
  | RequestIdentify => run (sendIdentify msg)
  | ResponseIdentify => run (processIdentify msg)
  | MessageError => run (log LError [string_of_list_byte (Payload msg)])
  | MessageIdentifiedWithServer =>
      andThen (send identifiedWithServerChan_ true)
              (run (modify (set_identifiedWithServer true)))
  | MessageConnectedToCard => send connectedToCardChan_ true
  | RequestCardPair1 => run (processCardPair1 msg)
  | ResponseCardPair1 => send cardPair1DataChan_ (Payload msg)
  | RequestFinalizeCardPair => run (processFinalizeCardPair msg)
  | ResponseFinalizeCardPair => send finalizeCardPairDataChan_ (Payload msg)
  | MessagePhononAck => send phononAckChan_ true
  | RequestReceivePhonon => run (processReceivePhonons msg)
  | RequestConnectCard2Card => Some
  | UnknownName _ => Some
  end.

(** [HandleIncoming] as seen from a goroutine that waits on channel [ch]
    until [deadline]: the loop decodes the frames in stream order and calls
    [process] on each before it reads the next; the wait ends as soon as
    [ch] holds a value, or at the deadline.  The loop has ended once the
    decoder failed (a malformed frame, a closed stream): nothing is read
    after that.  A handler blocked on a full channel keeps its frame at the
    head of the stream. *)
Fixpoint await {T} (ch : ChanRef T) (deadline : Z) (fr : list (Z * Frame))
    (w : World) : option T * World :=
  match chan_take (get_chan ch (c w)) with
  | Some (v, ch') => (Some v, set_incoming fr (upd_c (set_chan ch ch') w))
  | None =>
      match fr with
      | [] => (None, set_now deadline (set_incoming [] w))
      | (t, f) :: rest =>
          if deadline <=? t then (None, set_now deadline (set_incoming fr w))
          else if closed (conn (c w)) then
            (None, set_now deadline (set_incoming [] w))
          else
            match f with
            | Malformed => (None, set_now deadline (set_incoming [] w))
            | Decoded m =>
                match process m (set_now (Z.max (now w) t) (set_incoming rest w)) with
                | None => (None, set_now deadline (set_incoming fr w))
                | Some w' => await ch deadline rest w'
                end
            end
      end
  end.

(** [select { case v := <-ch: ...; case <-time.After(d): ... }] *)
Definition select_recv {T} (ch : ChanRef T) (d : Duration) : M (option T) :=
  fun w => await ch (now w + d) (incoming w) w.

(** The caller does nothing for [d]; the dispatch loop keeps running. *)
Definition no_chan : ChanRef unit := mkChanRef unit (fun _ => None) (fun _ r => r).
Definition Sleep (d : Duration) : M unit :=
  fun w => (tt, snd (await no_chan (now w + d) (incoming w) w)).

(** ** The methods of the remote counterparty interface *)

(** [nonce] is what [rand.Read] put into the 32-byte array. *)
Definition Identify (nonce : bytes) : M (option error) :=
  modify (set_counterpartyNonce nonce) ;;
  sendMessage RequestIdentify nonce ;;
  r <- select_recv remoteIdentityChan_ (10 * Second) ;;
  match r with
  | Some _ => ret None
  | None => ret (Some ErrTimeout)
  end.

Definition CardPair (initPairingData : bytes) : M (bytes * option error) :=
  sendMessage RequestCardPair1 initPairingData ;;
  r <- select_recv cardPair1DataChan_ (10 * Second) ;;
  match r with
  | Some cardPairData => ret (cardPairData, None)
  | None => ret ([], Some ErrTimeout)
  end.

Definition CardPair2 (cardPairData : bytes) : M (bytes * option error) :=
  ret ([], None).

Definition FinalizeCardPair (cardPair2Data : bytes) : M (option error) :=
  sendMessage RequestFinalizeCardPair cardPair2Data ;;
  pf <- read pairFinalized ;;
  if negb pf then
    r <- select_recv finalizeCardPairDataChan_ (10 * Second) ;;
    match r with
    | Some errorbytes =>
        if (0 <? Z.of_nat (List.length errorbytes)) then
          ret (Some (errors_New (string_of_list_byte errorbytes)))
        else ret None
    | None => ret (Some ErrTimeout)
    end
  else
    modify (set_pairFinalized true) ;;
    modify (fun r => set_session (mkSession (hw (session r)) (Some (self r))) r) ;;
    ret None.

Definition GetCertificate : M (option CardCertificate * option error) :=
  rc <- read remoteCertificate ;;
  match rc with
  | None =>
      sendMessage RequestCertificate [] ;;
      r <- select_recv remoteCertificateChan_ (10 * Second) ;;
      match r with
      | Some cert =>
          modify (set_remoteCertificate (Some cert)) ;;
          rc' <- read remoteCertificate ;;
          ret (rc', None)
      | None => ret (None, Some ErrTimeout)
      end
  | Some _ => ret (rc, None)
  end.

Definition ConnectToCard_request (cardID : string) : M (option error) :=
  log LInfo ["sending requestConnectCard2Card message"%string] ;;
  sendMessage RequestConnectCard2Card (list_byte_of_string cardID) ;;
  r <- select_recv connectedToCardChan_ (10 * Second) ;;
  match r with
  | None =>
      log LError ["Connection Timed out Waiting for peer"%string] ;;
      modify (fun r => set_conn (mkConn true (written (conn r))) r) ;;
      ret (Some ErrTimeout)
  | Some _ => ret None
  end.

Definition ConnectToCard (cardID : string) : M (option error) :=
  ids <- read identifiedWithServer ;;
  if negb ids then
    r <- select_recv identifiedWithServerChan_ (10 * Second) ;;
    match r with
    | None => ret (Some ErrTimeout)
    | Some _ =>
        log LInfo ["received Identified with server"%string] ;;
        ConnectToCard_request cardID
    end
  else ConnectToCard_request cardID.

Definition ReceivePhonons (PhononTransfer : bytes) : M (option error) :=
  sendMessage RequestReceivePhonon PhononTransfer ;;
  r <- select_recv phononAckChan_ (10 * Second) ;;
  match r with
  | None =>
      log LError ["unable to verify remote recipt of phonons"%string] ;;
      ret (Some ErrTimeout)
  | Some _ => ret None
  end.

Definition GenerateInvoice : M (bytes * option error) := ret ([], None).

Definition ReceiveInvoice (invoiceData : bytes) : M (option error) := ret None.

(** [Connect], once the dial has succeeded: [addr] is the address of the new
    struct, [t0] the instant of the call and [stream] what the relay will
    deliver.  All seven channels are made empty, the flags are false, the
    nonce is the zero array. *)
Definition Connect (addr : nat) (s : Session) (t0 : Z) (stream : list (Z * Frame)) : World :=
  mkWorld
    (mkRC addr (mkConn false []) None s
       None false (repeat x00 32) false None false None None None None None)
    t0 stream [].

(** ** Runs of a caller *)

(** One thing the owner of the connection does next. *)
Inductive Call : Type :=
| DoIdentify (nonce : bytes)
| DoCardPair (initPairingData : bytes)
| DoCardPair2 (cardPairData : bytes)
| DoFinalizeCardPair (cardPair2Data : bytes)
| DoGetCertificate
| DoConnectToCard (cardID : string)
| DoReceivePhonons (PhononTransfer : bytes)
| DoGenerateInvoice
| DoReceiveInvoice (invoiceData : bytes)
| DoSleep (d : Duration).

Definition exec (k : Call) (w : World) : World :=
  match k with
  | DoIdentify nonce => snd (Identify nonce w)
  | DoCardPair d => snd (CardPair d w)
  | DoCardPair2 d => snd (CardPair2 d w)
  | DoFinalizeCardPair d => snd (FinalizeCardPair d w)
  | DoGetCertificate => snd (GetCertificate w)
  | DoConnectToCard id => snd (ConnectToCard id w)
  | DoReceivePhonons d => snd (ReceivePhonons d w)
  | DoGenerateInvoice => snd (GenerateInvoice w)
  | DoReceiveInvoice d => snd (ReceiveInvoice d w)
  | DoSleep d => snd (Sleep d w)
  end.

Definition execs (ks : list Call) (w : World) : World := fold_left (fun w k => exec k w) ks w.

(** ** How a connection evolves *)

(** What every step of the dispatch loop and every method preserves: the
    address, the flags that are set, the binding of the session's remote
    card, a cached certificate, the emptiness of the identity channel and
    the closing of the stream. *)
Record evolves (r r' : RemoteConnection) : Prop := mkEvolves {
  ev_self : self r' = self r;
  ev_identifiedWithServer :
    identifiedWithServer r = true -> identifiedWithServer r' = true;
  ev_verified : verified r = true -> verified r' = true;
  ev_pairFinalized : pairFinalized r = true -> pairFinalized r' = true;
  ev_RemoteCard :
    RemoteCard (session r) = Some (self r) ->
    RemoteCard (session r') = Some (self r);
  ev_bound :
    (pairFinalized r = true -> RemoteCard (session r) = Some (self r)) ->
    (pairFinalized r' = true -> RemoteCard (session r') = Some (self r'));
  ev_remoteCertificate :
    remoteCertificate r <> None -> remoteCertificate r' <> None;
  ev_remoteIdentityChan :
    remoteIdentityChan r = None -> remoteIdentityChan r' = None;
  ev_closed : closed (conn r) = true -> closed (conn r') = true;
  ev_written : exists l, written (conn r') = written (conn r) ++ l
}.

(** The channel fields are independent of everything [evolves] tracks,
    but for the identity channel, which a receive can only empty. *)
Definition plain_chan {T} (ch : ChanRef T) : Prop :=
  forall r, evolves r (set_chan ch None r).

(** A program of the caller under which the connection evolves. *)
Definition preserves {A} (m : M A) : Prop :=
  forall w, evolves (c w) (c (snd (m w))).

(** ** Which frames feed which channel *)

Definition MessageName_eq_dec (a b : MessageName) : {a = b} + {a <> b}.
Proof. decide equality. apply string_dec. Defined.

Definition named (n : MessageName) (m : Message) : bool :=
  if MessageName_eq_dec (Name m) n then true else false.

(** [routes ch reply]: only the messages selected by [reply] make the
    dispatch loop touch channel [ch]. *)
Definition routes {T} (ch : ChanRef T) (reply : Message -> bool) : Prop :=
  forall m w w',
    reply m = false -> process m w = Some w' ->
    get_chan ch (c w') = get_chan ch (c w).

(** Every frame that reaches the decoder before [d] satisfies [q]; the
    window ends at the first frame that comes later, or at a frame the
    decoder rejects. *)
Fixpoint window_all (q : Message -> bool) (d : Z) (fr : list (Z * Frame)) : bool :=
  match fr with
  | [] => true
  | (t, f) :: rest =>
      if d <=? t then true
      else match f with
           | Malformed => true
           | Decoded m => q m && window_all q d rest
           end
  end.

(** Nothing reaches the decoder before [d]. *)
Definition quiet (d : Z) (fr : list (Z * Frame)) : bool :=
  match fr with
  | [] => true
  | (t, _) :: _ => d <=? t
  end.


(** ** Executions *)

(** One step of the system: the caller performs a call, or the dispatch
    loop handles a message. *)
Inductive step (w : World) : World -> Prop :=
| step_call (k : Call) : step w (exec k w)
| step_process (m : Message) (w' : World) : process m w = Some w' -> step w w'.

Inductive reach (w : World) : World -> Prop :=
| reach_refl : reach w w
| reach_step (w1 w2 : World) : reach w w1 -> step w1 w2 -> reach w w2.

(** ** Notions used by the statements *)

(** The identify-response [payload] parses and its signature verifies over
    [nonce]: the test of [processIdentify]. *)
Definition validates (payload nonce : bytes) : bool :=
  match card_ParseIdentifyCardResponse payload with
  | inl _ => false
  | inr (key, sig) => ecdsa_Verify key nonce (sig_R sig) (sig_S sig)
  end.

(** The error a call returns. *)
Definition result (k : Call) (w : World) : option error :=
  match k with
  | DoIdentify nonce => fst (Identify nonce w)
  | DoCardPair d => snd (fst (CardPair d w))
  | DoCardPair2 d => snd (fst (CardPair2 d w))
  | DoFinalizeCardPair d => fst (FinalizeCardPair d w)
  | DoGetCertificate => snd (fst (GetCertificate w))
  | DoConnectToCard id => fst (ConnectToCard id w)
  | DoReceivePhonons d => fst (ReceivePhonons d w)
  | DoGenerateInvoice => snd (fst (GenerateInvoice w))
  | DoReceiveInvoice d => fst (ReceiveInvoice d w)
  | DoSleep _ => None
  end.

Definition is_empty {T} (ch : option T) : bool :=
  match ch with None => true | Some _ => false end.

(** The call starts by waiting, and the channel it waits on is empty. *)
Definition waits (k : Call) (r : RemoteConnection) : bool :=
  match k with
  | DoIdentify _ => is_empty (remoteIdentityChan r)
  | DoCardPair _ => is_empty (cardPair1DataChan r)
  | DoFinalizeCardPair _ =>
      negb (pairFinalized r) && is_empty (finalizeCardPairDataChan r)
  | DoGetCertificate =>
      is_empty (remoteCertificate r) && is_empty (remoteCertificateChan r)
  | DoConnectToCard _ =>
      if identifiedWithServer r then is_empty (connectedToCardChan r)
      else is_empty (identifiedWithServerChan r)
  | DoReceivePhonons _ => is_empty (phononAckChan r)
  | _ => false
  end.

(** The envelope that answers the (first) wait of a call. *)
Definition reply_to (k : Call) (r : RemoteConnection) : Message -> bool :=
  match k with
  | DoIdentify _ => named ResponseIdentify
  | DoCardPair _ => named ResponseCardPair1
  | DoFinalizeCardPair _ => named ResponseFinalizeCardPair
  | DoGetCertificate => named ResponseCertificate
  | DoConnectToCard _ =>
      if identifiedWithServer r then named MessageConnectedToCard
      else named MessageIdentifiedWithServer
  | DoReceivePhonons _ => named MessagePhononAck
  | _ => fun _ => false
  end.

(** What a call whose (first) wait times out has itself done to the
    connection. *)
Definition timed_out (k : Call) (r : RemoteConnection) : RemoteConnection :=
  match k with
  | DoIdentify nonce => wrote RequestIdentify nonce (set_counterpartyNonce nonce r)
  | DoCardPair d => wrote RequestCardPair1 d r
  | DoFinalizeCardPair d => wrote RequestFinalizeCardPair d r
  | DoGetCertificate => wrote RequestCertificate [] r
  | DoConnectToCard id =>
      if identifiedWithServer r then
        let r1 := wrote RequestConnectCard2Card (list_byte_of_string id) r in
        set_conn (mkConn true (written (conn r1))) r1
      else r
  | DoReceivePhonons d => wrote RequestReceivePhonon d r
  | _ => r
  end.

(** ** Notions used by the statements about the dispatch loop *)

(** The handler of [m] would block: [m] is routed to a channel that is
    full. *)
Definition stuck (m : Message) (r : RemoteConnection) : bool :=
  match Name m with
  | ResponseCertificate =>
      match cert_ParseRawCardCertificate (Payload m) with
      | inl _ => false
      | inr _ => negb (is_empty (remoteCertificateChan r))
      end
  | MessageIdentifiedWithServer => negb (is_empty (identifiedWithServerChan r))
  | MessageConnectedToCard => negb (is_empty (connectedToCardChan r))
  | ResponseCardPair1 => negb (is_empty (cardPair1DataChan r))
  | ResponseFinalizeCardPair => negb (is_empty (finalizeCardPairDataChan r))
  | MessagePhononAck => negb (is_empty (phononAckChan r))
  | _ => false
  end.


(** The name of the envelope a handler may write when it handles [n]. *)
Definition answer_name (n : MessageName) : option MessageName :=
  match n with
  | RequestCertificate => Some ResponseCertificate
  | RequestIdentify => Some ResponseIdentify
  | RequestCardPair1 => Some ResponseCardPair1
  | RequestFinalizeCardPair => Some ResponseFinalizeCardPair
  | RequestReceivePhonon => Some MessagePhononAck
  | _ => None
  end.

(** What the dispatch loop of a connection writes to its stream while it
    handles [m]. *)
Definition answers (m : Message) (w : World) : list Message :=
  match process m w with
  | Some w' =>
      skipn (List.length (written (conn (c w)))) (written (conn (c w')))
  | None => []
  end.

(** The relay hands [ms] to the decoder of the other side at instant [t]. *)
Definition delivered (t : Z) (ms : list Message) : list (Z * Frame) :=
  map (fun m => (t, Decoded m)) ms.

(** What a call has written to the connection when it starts its (first)
    wait. *)
Definition requested (k : Call) (r : RemoteConnection) : RemoteConnection :=
  match k with
  | DoIdentify nonce => wrote RequestIdentify nonce (set_counterpartyNonce nonce r)
  | DoCardPair d => wrote RequestCardPair1 d r
  | DoFinalizeCardPair d => wrote RequestFinalizeCardPair d r
  | DoGetCertificate => wrote RequestCertificate [] r
  | DoConnectToCard id =>
      if identifiedWithServer r then
        wrote RequestConnectCard2Card (list_byte_of_string id) r
      else r
  | DoReceivePhonons d => wrote RequestReceivePhonon d r
  | _ => r
  end.

(** The longest a call can take. *)
Definition longest (k : Call) : Duration :=
  match k with
  | DoIdentify _ | DoCardPair _ | DoFinalizeCardPair _ | DoGetCertificate
  | DoReceivePhonons _ => 10 * Second
  | DoConnectToCard _ => 10 * Second + 10 * Second
  | DoSleep d => d
  | _ => 0
  end.

(** A program of the caller that takes at most [D]. *)
Definition within {A} (D : Duration) (m : M A) : Prop :=
  forall w, now w <= now (snd (m w)) <= now w + D.

(** The connection as a call that gave up leaves it: [ConnectToCard]
    closes the stream when it had sent its request. *)
Definition gave_up (k : Call) (r0 r : RemoteConnection) : RemoteConnection :=
  match k with
  | DoConnectToCard _ =>
      if identifiedWithServer r0
      then set_conn (mkConn true (written (conn r))) r else r
  | _ => r
  end.

End Client.

Arguments get_chan {E T} _ _.
Arguments set_chan {E T} _ _ _.

(** ** A simulated peer *)

(** Stand-ins for the collaborators, for running the client on concrete
    inputs: a card is its key, a signature over [h] by [key] is
    [(key, (key + digest h) mod 251)], an identify-response is the three
    bytes key, R, S, and a certificate is its own serialization. *)
Definition digest (h : bytes) : Z :=
  fold_right (fun b acc => Z.of_N (Byte.to_N b) + acc) 0 h.

Definition sim_sign (key : Z) (h : bytes) : ECDSASignature :=
  mkSig key ((key + digest h) mod 251).

Definition sim_verify (key : Z) (h : bytes) (r s : Z) : bool :=
  (r =? key) && (s =? (key + digest h) mod 251).

Definition byte_of_Z (z : Z) : byte :=
  match Byte.of_N (Z.to_N z) with
  | Some b => b
  | None => x00
  end.

Definition sim_response (key : Z) (sig : ECDSASignature) : bytes :=
  [byte_of_Z key; byte_of_Z (sig_R sig); byte_of_Z (sig_S sig)].

Definition sim_parse (p : bytes) : error + (Z * ECDSASignature) :=
  match p with
  | [k; r; s] =>
      inr (Z.of_N (Byte.to_N k),
           mkSig (Z.of_N (Byte.to_N r)) (Z.of_N (Byte.to_N s)))
  | _ => inl (errors_New "bad identify response"%string)
  end.

Definition sim : Collaborators := {|
  HW := Z;
  PublicKey := Z;
  CardCertificate := bytes;
  session_GetCertificate := fun h => (([byte_of_Z h], None), h);
  session_IdentifyCard := fun h nonce => ((h, sim_sign h nonce, None), h);
  session_CardPair := fun h p => ((p, None), h);
  session_FinalizeCardPair := fun h p =>
    (match p with
     | [] => Some (errors_New "no pairing data"%string)
     | _ => None
     end, h);
  session_ReceivePhonons := fun h p => (None, h);
  cert_Serialize := fun crt => crt;
  cert_ParseRawCardCertificate := fun p =>
    match p with
    | [] => inl (errors_New "empty certificate"%string)
    | _ => inr p
    end;
  card_ParseIdentifyCardResponse := sim_parse;
  ecdsa_Verify := sim_verify;
  gob_Encode := fun sig => [byte_of_Z (sig_R sig); byte_of_Z (sig_S sig)]
|}.

(** ** Scenarios *)

(** A connection of the card with key 7, made at instant 0, to which the
    relay will deliver [stream]. *)
Definition fresh (stream : list (Z * Frame)) : World (E := sim) :=
  Connect (E := sim) 1%nat (mkSession (E := sim) 7 None) 0 stream.

Definition nonce1 : bytes := repeat x01 32.
Definition nonce2 : bytes := repeat x02 32.

(** The identify-response of an honest peer with key 9 to the challenge
    [nonce]. *)
Definition honest_response (nonce : bytes) : Message :=
  mkMessage ResponseIdentify (sim_response 9 (sim_sign 9 nonce)).

(** The peer answers the first challenge, and replays the same answer to
    the second. *)
Definition replayed : World (E := sim) :=
  fresh [(Second, Decoded (honest_response nonce1));
         (11 * Second, Decoded (honest_response nonce1))].

(** The server has announced that the client is identified. *)
Definition identified : World (E := sim) :=
  exec (DoSleep Second)
    (fresh [(0, Decoded (mkMessage MessageIdentifiedWithServer []))]).

(** The peer asks to finalize the pairing. *)
Definition finalize_requested : World (E := sim) :=
  fresh [(Second, Decoded (mkMessage RequestFinalizeCardPair [x01]))].

(** The peer answers a finalize request with an empty payload. *)
Definition finalize_answered : World (E := sim) :=
  fresh [(Second, Decoded (mkMessage ResponseFinalizeCardPair []))].

(** The peer answers a certificate request. *)
Definition certificate_answered : World (E := sim) :=
  fresh [(Second, Decoded (mkMessage ResponseCertificate [x2a]))].

(** The peer challenges this side. *)
Definition challenged : World (E := sim) :=
  fresh [(Second, Decoded (mkMessage RequestIdentify nonce1))].

(** The server announces twice that the client is identified; nobody has
    received the first announcement when the second one is decoded. *)
Definition notified_twice : World (E := sim) :=
  exec (DoSleep Second)
    (fresh [(0, Decoded (mkMessage MessageIdentifiedWithServer []));
            (0, Decoded (mkMessage MessageIdentifiedWithServer []))]).

(** The stream is corrupted before the peer's answer. *)
Definition garbled : World (E := sim) :=
  fresh [(Second, Malformed);
         (2 * Second, Decoded (mkMessage ResponseCardPair1 [x2a]))].



(** A phase-1 response was decoded while nobody was waiting for it. *)
Definition answered_early : World (E := sim) :=
  exec (DoSleep Second)
    (fresh [(0, Decoded (mkMessage ResponseCardPair1 [x2a]))]).

(** The peer: the card with key 9, on a connection of its own. *)
Definition peer : World (E := sim) :=
  Connect (E := sim) 2%nat (mkSession (E := sim) 9 None) 0 [].

(** This side, when the relay delivers what the peer wrote for [request]
    one second after the connection was made. *)
Definition answered_by_peer (request : Message) : World (E := sim) :=
  fresh (delivered Second (answers request peer)).

(** The certificate-response comes one second after [GetCertificate] has
    given up. *)
Definition certificate_late : World (E := sim) :=
  fresh [(11 * Second, Decoded (mkMessage ResponseCertificate [x2a]))].

(** The peer's finalize-pair response, with payload [p], comes one second
    after the initiator has given up. *)
Definition finalize_answered_late (p : bytes) : World (E := sim) :=
  fresh [(11 * Second, Decoded (mkMessage ResponseFinalizeCardPair p))].

End Remote.

Module Validator.

(** ** The bcoin transaction records *)

Record Coin : Type := mkCoin { Coin_Value : Z; Coin_Address : string }.
Record input : Type := mkInput { input_Coin : Coin }.
Record output : Type := mkOutput { Value : Z; Address : string }.
Record transaction : Type := mkTransaction {
  Hash : string;
  Inputs : list input;
  Outputs : list output
}.
Definition transactionList : Type := list transaction.

Definition transactionRequestLimit : Z := 100.

(** Arithmetic of [int64]: the result wraps around. *)
Definition int64 (z : Z) : Z := (z + 2 ^ 63) mod 2 ^ 64 - 2 ^ 63.

(** Go's [error] values threaded through a sequence of fallible calls. *)
Definition and_then {A B} (x : error + A) (k : A -> error + B) : error + B :=
  match x with
  | inl e => inl e
  | inr a => k a
  end.

(** ** The services *)

(** What [validator/btc.go] calls outside itself: the key serializations
    of [btcec], the address constructors of [btcutil], [txscript], and the
    bcoin indexer behind [getTransactionList] (the decoded answer to a GET
    of a URL). *)
Class Services : Type := {
  PublicKey : Type;
  Addr : Type;
  SerializeUncompressed : PublicKey -> bytes;
  SerializeHybrid : PublicKey -> bytes;
  SerializeCompressed : PublicKey -> bytes;
  Hash160 : bytes -> bytes;
  NewAddressPubKey : bytes -> error + Addr;
  NewAddressWitnessPubKeyHash : bytes -> error + Addr;
  PayToAddrScript : Addr -> error + bytes;
  NewAddressScriptHash : bytes -> error + Addr;
  EncodeAddress : Addr -> string;
  getTransactionList : string -> error + transactionList
}.

Section BTC.
Context {V : Services}.

(** Modelled from the spec: [model.Phonon] is declared in package [model],
    which is not part of the sources at hand; a phonon carries the public
    key and the value it claims. *)
Record Phonon : Type := mkPhonon { PubKey : PublicKey; ClaimedValue : Z }.

Definition pubKeyToAddresses (key : PublicKey) : error + list string :=
  and_then (NewAddressPubKey (SerializeUncompressed key)) (fun pubKeyUncompressed =>
  and_then (NewAddressPubKey (SerializeHybrid key)) (fun pubKeyHybrid =>
  and_then (NewAddressPubKey (SerializeCompressed key)) (fun pubKeyCompressed =>
  and_then (NewAddressWitnessPubKeyHash (Hash160 (SerializeCompressed key)))
    (fun compressedWitnessPubKey =>
  and_then (PayToAddrScript compressedWitnessPubKey) (fun p2shScriptCompressed =>
  and_then (NewAddressScriptHash p2shScriptCompressed) (fun p2shCompressed =>
  and_then (NewAddressWitnessPubKeyHash (Hash160 (SerializeUncompressed key)))
    (fun uncompressedWitnessPubKey =>
  and_then (PayToAddrScript uncompressedWitnessPubKey) (fun p2shScriptUncompressed =>
  and_then (NewAddressScriptHash p2shScriptUncompressed) (fun p2shUncompressed =>
  inr [EncodeAddress p2shCompressed;
       EncodeAddress p2shUncompressed;
       EncodeAddress pubKeyCompressed;
       EncodeAddress pubKeyUncompressed;
       EncodeAddress pubKeyHybrid]))))))))).

(** The two innermost loops of [aggregateTransactions]: one coin against
    every address. *)
Definition debit (addresses : list string) (runningTotal : Z) (i : input) : Z :=
  fold_left (fun total address =>
    if String.eqb (Coin_Address (input_Coin i)) address
    then int64 (total - Coin_Value (input_Coin i)) else total)
    addresses runningTotal.

Definition credit (addresses : list string) (runningTotal : Z) (o : output) : Z :=
  fold_left (fun total address =>
    if String.eqb (Address o) address
    then int64 (total + Value o) else total)
    addresses runningTotal.

Definition aggregateTransactions (txl : transactionList) (addresses : list string)
    : Z * option error :=
  (fold_left (fun runningTotal tx =>
     fold_left (credit addresses) (Outputs tx)
       (fold_left (debit addresses) (Inputs tx) runningTotal))
     txl 0,
   None).

Definition first_page (url address : string) : string :=
  (url ++ "/tx/address/" ++ address ++ "?limit=100")%string.

Definition next_page (url address after : string) : string :=
  (url ++ "/tx/address/" ++ address ++ "?limit=100&after=" ++ after)%string.

Definition last_hash (ret : transactionList) : string :=
  Hash (last ret (mkTransaction "" [] [])).

(** The inner loop of [GetTransactions]: as long as the page is full, ask
    for the next one.  [None] when [fuel] pages were not enough. *)
Fixpoint more_pages (fuel : nat) (url address : string)
    (ret listPart : transactionList) : option (error + transactionList) :=
  if Z.of_nat (List.length listPart) =? transactionRequestLimit then
    match fuel with
    | O => None
    | Datatypes.S fuel' =>
        match getTransactionList (next_page url address (last_hash ret)) with
        | inl e => Some (inl e)
        | inr part => more_pages fuel' url address (ret ++ part) part
        end
    end
  else Some (inr ret).

Fixpoint GetTransactions_loop (fuel : nat) (url : string) (addresses : list string)
    (ret : transactionList) : option (error + transactionList) :=
  match addresses with
  | [] => Some (inr ret)
  | address :: rest =>
      match getTransactionList (first_page url address) with
      | inl e => Some (inl e)
      | inr listPart =>
          match more_pages fuel url address (ret ++ listPart) listPart with
          | None => None
          | Some (inl e) => Some (inl e)
          | Some (inr ret') => GetTransactions_loop fuel url rest ret'
          end
      end
  end.

Definition GetTransactions (fuel : nat) (url : string) (addresses : list string)
    : option (error + transactionList) :=
  GetTransactions_loop fuel url addresses [].

(** [getBalance]: the error of [GetTransactions] is overwritten by the
    next assignment to [err]; on that error the list is nil. *)
Definition getBalance (fuel : nat) (url : string) (addresses : list string)
    : option (Z * option error) :=
  match GetTransactions fuel url addresses with
  | None => None
  | Some got =>
      let transactions := match got with inl _ => [] | inr txl => txl end in
      match aggregateTransactions transactions addresses with
      | (_, Some err) => Some (0, Some err)
      | (balance, None) => Some (balance, None)
      end
  end.

Definition Validate (fuel : nat) (url : string) (phonon : Phonon)
    : option (bool * option error) :=
  match pubKeyToAddresses (PubKey phonon) with
  | inl err => Some (false, Some err)
  | inr addresses =>
      match getBalance fuel url addresses with
      | None => None
      | Some (_, Some err) => Some (false, Some err)
      | Some (balance, None) =>
          if balance =? 0 then Some (false, None) else Some (true, None)
      end
  end.

(** What the documentation of [Validate] asks for: the balance covers the
    value stated in the phonon. *)
Definition backed (balance : Z) (phonon : Phonon) : bool :=
  ClaimedValue phonon <=? balance.

(** ** Notions used by the statements about the balance *)

Definition in_int64 (z : Z) : Prop := - 2 ^ 63 <= z < 2 ^ 63.

(** How many entries of [addresses] equal [a]. *)
Fixpoint occurrences (a : string) (addresses : list string) : Z :=
  match addresses with
  | [] => 0
  | x :: rest => (if String.eqb a x then 1 else 0) + occurrences a rest
  end.

(** What a transaction adds to the running total, over the integers: every
    output and every spent coin once per matching entry of [addresses]. *)
Definition flow (addresses : list string) (tx : transaction) : Z :=
  fold_right (fun o acc => occurrences (Address o) addresses * Value o + acc)
    0 (Outputs tx)
  - fold_right
      (fun i acc =>
         occurrences (Coin_Address (input_Coin i)) addresses
         * Coin_Value (input_Coin i) + acc)
      0 (Inputs tx).

Definition net_flow (addresses : list string) (txl : transactionList) : Z :=
  fold_right (fun tx acc => flow addresses tx + acc) 0 txl.

(** The outputs paid to one of [addresses] minus the coins spent from one
    of them, each counted once. *)
Definition owned (addresses : list string) (a : string) : bool :=
  existsb (String.eqb a) addresses.

Definition received (addresses : list string) (tx : transaction) : Z :=
  fold_right (fun o acc => (if owned addresses (Address o) then Value o else 0) + acc)
    0 (Outputs tx).

Definition spent (addresses : list string) (tx : transaction) : Z :=
  fold_right
    (fun i acc =>
       (if owned addresses (Coin_Address (input_Coin i))
        then Coin_Value (input_Coin i) else 0) + acc)
    0 (Inputs tx).

Definition net_owned (addresses : list string) (txl : transactionList) : Z :=
  fold_right (fun tx acc => received addresses tx - spent addresses tx + acc) 0 txl.

(** The first page the indexer serves for an address (nil on an error). *)
Definition page (url address : string) : transactionList :=
  match getTransactionList (first_page url address) with
  | inr p => p
  | inl _ => []
  end.

(** The first page of an address is served and is not full. *)
Definition short_page (url address : string) : Prop :=
  exists p,
    getTransactionList (first_page url address) = inr p /\
    Z.of_nat (List.length p) <> transactionRequestLimit.

End BTC.

(** ** A simulated chain *)

(** One key with five addresses; the indexer knows one transaction, which
    pays 1 to the compressed P2PKH address. *)
Definition sim_tx : transaction :=
  mkTransaction "h1" [] [mkOutput 1 "addr-p2pkh-c"].

Definition sim_chain : Services := {|
  PublicKey := unit;
  Addr := string;
  SerializeUncompressed := fun _ => [x04];
  SerializeHybrid := fun _ => [x06];
  SerializeCompressed := fun _ => [x02];
  Hash160 := fun b => b;
  NewAddressPubKey := fun b =>
    match b with
    | [x04] => inr "addr-p2pkh-u"%string
    | [x06] => inr "addr-p2pkh-h"%string
    | _ => inr "addr-p2pkh-c"%string
    end;
  NewAddressWitnessPubKeyHash := fun b =>
    match b with
    | [x04] => inr "wit-u"%string
    | _ => inr "wit-c"%string
    end;
  PayToAddrScript := fun a => inr (list_byte_of_string a);
  NewAddressScriptHash := fun b =>
    inr ("addr-p2sh-" ++ string_of_list_byte b)%string;
  EncodeAddress := fun a => a;
  getTransactionList := fun u =>
    if String.eqb u "http://bcoin/tx/address/addr-p2pkh-c?limit=100"
    then inr [sim_tx] else inr []
|}.

(** The simulated chain with another indexer behind it. *)
Definition sim_with (indexer : string -> error + transactionList) : Services := {|
  PublicKey := @PublicKey sim_chain;
  Addr := @Addr sim_chain;
  SerializeUncompressed := @SerializeUncompressed sim_chain;
  SerializeHybrid := @SerializeHybrid sim_chain;
  SerializeCompressed := @SerializeCompressed sim_chain;
  Hash160 := @Hash160 sim_chain;
  NewAddressPubKey := @NewAddressPubKey sim_chain;
  NewAddressWitnessPubKeyHash := @NewAddressWitnessPubKeyHash sim_chain;
  PayToAddrScript := @PayToAddrScript sim_chain;
  NewAddressScriptHash := @NewAddressScriptHash sim_chain;
  EncodeAddress := @EncodeAddress sim_chain;
  getTransactionList := indexer
|}.

(** The indexer is down: every request fails. *)
Definition sim_chain_down : Services :=
  sim_with (fun _ => inl (errors_New "connection refused")).

(** An indexer that ignores [after] and serves the same full page again
    and again. *)
Definition sim_chain_full : Services :=
  sim_with (fun _ => inr (repeat sim_tx 100)).

(** An indexer that serves one full page for the address [a] and then,
    asked for what follows its last transaction, one more transaction. *)
Definition sim_page1 : transactionList :=
  repeat (mkTransaction "h0" [] [mkOutput 2 "a"]) 99
  ++ [mkTransaction "h99" [mkInput (mkCoin 5 "a")] []].

Definition sim_chain_paged : Services :=
  sim_with (fun u =>
    if String.eqb u "http://bcoin/tx/address/a?limit=100" then inr sim_page1
    else if String.eqb u "http://bcoin/tx/address/a?limit=100&after=h99"
    then inr [sim_tx]
    else inr []).

(** The key is not a point [btcutil] accepts. *)
Definition sim_chain_badkey : Services := {|
  PublicKey := unit;
  Addr := string;
  SerializeUncompressed := fun _ => [x04];
  SerializeHybrid := fun _ => [x06];
  SerializeCompressed := fun _ => [x02];
  Hash160 := fun b => b;
  NewAddressPubKey := fun _ => inl (errors_New "invalid pubkey");
  NewAddressWitnessPubKeyHash := fun b => inr (string_of_list_byte b);
  PayToAddrScript := fun a => inr (list_byte_of_string a);
  NewAddressScriptHash := fun b => inr (string_of_list_byte b);
  EncodeAddress := fun a => a;
  getTransactionList := fun _ => inr []
|}.

(** The five addresses of the key on the simulated chain. *)
Definition sim_addresses : list string :=
  ["addr-p2sh-wit-c"; "addr-p2sh-wit-u"; "addr-p2pkh-c"; "addr-p2pkh-u";
   "addr-p2pkh-h"]%string.

End Validator.

(** * Properties of the remote client *)

Section RemoteProperties.
Import Remote.
Context {E : Collaborators}.

Ltac ev_solve :=
  constructor; simpl; intros; simpl in *; auto; try congruence;
  try (exists []; rewrite app_nil_r; reflexivity);
  try (eexists; reflexivity).

Lemma evolves_refl r : evolves r r.
Proof. ev_solve. Qed.

Lemma evolves_trans r1 r2 r3 : evolves r1 r2 -> evolves r2 r3 -> evolves r1 r3.
Proof.
  intros [s1 i1 v1 p1 b1 bd1 c1 n1 k1 [l1 e1]] [s2 i2 v2 p2 b2 bd2 c2 n2 k2 [l2 e2]].
  constructor; auto.
  - congruence.
  - intros Hb. rewrite <- s1. apply b2. rewrite s1. auto.
  - exists (l1 ++ l2). rewrite e2, e1. now rewrite app_assoc.
Qed.

(** Unfolds a handler down to the record operations and splits on every
    test it makes. *)
Ltac unfold_handlers :=
  unfold process, receiveCertificate, sendCertificate, sendIdentify,
    processIdentify, processCardPair1, processFinalizeCardPair,
    processReceivePhonons, sendMessage, wrote, call_session, andThen, send,
    run,
    bind, ret, modify, read, log, chan_put, upd_c in *.

Ltac split_tests :=
  repeat match goal with
  | H : Some _ = Some _ |- _ => inversion H; subst; clear H
  | H : (_, _) = (_, _) |- _ => inversion H; subst; clear H
  | H : None = Some _ |- _ => discriminate H
  | H : Some _ = None |- _ => discriminate H
  | H : context [match ?x with _ => _ end] |- _ => destruct x eqn:?; simpl in H
  | H : context [if ?x then _ else _] |- _ => destruct x eqn:?; simpl in H
  | |- context [match ?x with _ => _ end] => destruct x eqn:?; simpl
  | |- context [if ?x then _ else _] => destruct x eqn:?; simpl
  end.

Lemma process_evolves m w w' :
  process m w = Some w' -> evolves (c w) (c w').
Proof.
  intros Hp. destruct w as [r t fr lg]. destruct m as [n p].
  destruct n; unfold_handlers; simpl in *; split_tests; ev_solve.
Qed.

(** A relation on connections that is reflexive, transitive and respected
    by [process] and by the receive on [ch] is respected by a wait on
    [ch]. *)
Lemma await_respects {T} (ch : ChanRef T)
    (P : RemoteConnection -> RemoteConnection -> Prop) :
  (forall r, P r r) ->
  (forall r1 r2 r3, P r1 r2 -> P r2 r3 -> P r1 r3) ->
  (forall r, P r (set_chan ch None r)) ->
  (forall m w w', process m w = Some w' -> P (c w) (c w')) ->
  forall d fr w, P (c w) (c (snd (await ch d fr w))).
Proof.
  intros Hrefl Htrans Htake Hproc d fr.
  induction fr as [|[t f] rest IH]; intros w; simpl.
  - unfold chan_take. destruct (get_chan ch (c w)); simpl; auto.
  - unfold chan_take. destruct (get_chan ch (c w)); simpl; auto.
    destruct (d <=? t); simpl; auto.
    destruct (closed (conn (c w))); simpl; auto.
    destruct f as [m|]; simpl; auto.
    destruct (process m _) as [w'|] eqn:Hp; simpl; auto.
    apply Htrans with (c w'); auto.
    apply Hproc in Hp. exact Hp.
Qed.



Ltac plain := intros r; ev_solve.

Lemma plain_identifiedWithServerChan : plain_chan identifiedWithServerChan_.
Proof. plain. Qed.
Lemma plain_connectedToCardChan : plain_chan connectedToCardChan_.
Proof. plain. Qed.
Lemma plain_remoteCertificateChan : plain_chan remoteCertificateChan_.
Proof. plain. Qed.
Lemma plain_remoteIdentityChan : plain_chan remoteIdentityChan_.
Proof. plain. Qed.
Lemma plain_cardPair1DataChan : plain_chan cardPair1DataChan_.
Proof. plain. Qed.
Lemma plain_finalizeCardPairDataChan : plain_chan finalizeCardPairDataChan_.
Proof. plain. Qed.
Lemma plain_phononAckChan : plain_chan phononAckChan_.
Proof. plain. Qed.
Lemma plain_no_chan : plain_chan no_chan.
Proof. plain. Qed.

Lemma await_evolves {T} (ch : ChanRef T) d fr w :
  plain_chan ch -> evolves (c w) (c (snd (await ch d fr w))).
Proof.
  intros Hch.
  apply await_respects;
    [ exact evolves_refl | exact evolves_trans | exact Hch | exact process_evolves ].
Qed.

Lemma preserves_bind {A B} (m : M A) (k : A -> M B) :
  preserves m -> (forall a, preserves (k a)) -> preserves (bind m k).
Proof.
  intros Hm Hk w. unfold bind. specialize (Hm w).
  destruct (m w) as [a w1]. simpl in Hm.
  eapply evolves_trans; [exact Hm | apply Hk].
Qed.

Lemma preserves_select {T} (ch : ChanRef T) d :
  plain_chan ch -> preserves (select_recv ch d).
Proof. intros Hch w. unfold select_recv. now apply await_evolves. Qed.

Lemma preserves_sendMessage n p : preserves (sendMessage n p).
Proof.
  intros w. unfold sendMessage, wrote, bind, log, modify, upd_c. simpl.
  destruct (closed (conn (c w))) eqn:Hcl; ev_solve.
Qed.

Lemma preserves_log l a : preserves (log l a).
Proof. intros w. apply evolves_refl. Qed.

Lemma preserves_ret {A} (a : A) : preserves (ret a).
Proof. intros w. apply evolves_refl. Qed.

Lemma preserves_read {A} (f : RemoteConnection -> A) : preserves (read f).
Proof. intros w. apply evolves_refl. Qed.

Create HintDb conn.
#[local] Hint Resolve plain_identifiedWithServerChan plain_connectedToCardChan
  plain_remoteCertificateChan plain_remoteIdentityChan plain_cardPair1DataChan
  plain_finalizeCardPairDataChan plain_phononAckChan plain_no_chan
  preserves_sendMessage preserves_log preserves_ret preserves_read
  preserves_select : conn.

Ltac straight_line :=
  solve [ intros ?w; unfold bind, ret, modify, read, upd_c; simpl; ev_solve ].

Ltac preserve :=
  repeat first
    [ straight_line
    | solve [auto with conn]
    | apply preserves_bind; [ | intros ? ]
    | match goal with
      | |- preserves (match ?x with _ => _ end) => destruct x
      | |- preserves (if ?x then _ else _) => destruct x
      end ].

Lemma preserves_Identify nonce : preserves (Identify nonce).
Proof. unfold Identify. preserve. Qed.

Lemma preserves_CardPair d : preserves (CardPair d).
Proof. unfold CardPair. preserve. Qed.

Lemma preserves_FinalizeCardPair d : preserves (FinalizeCardPair d).
Proof.
  intros w. unfold FinalizeCardPair.
  unfold bind at 1. destruct (sendMessage _ _ w) as [u w1] eqn:Hs.
  assert (H1 : evolves (c w) (c w1)).
  { pose proof (preserves_sendMessage RequestFinalizeCardPair d w) as H.
    rewrite Hs in H. exact H. }
  eapply evolves_trans; [exact H1|].
  unfold bind at 1, read. simpl.
  destruct (pairFinalized (c w1)) eqn:Hpf; simpl.
  - unfold bind, modify, ret, upd_c. simpl. ev_solve.
  - revert w1 H1 Hpf Hs. intros w1 _ _ _. revert w1.
    change (preserves
      (r <- select_recv finalizeCardPairDataChan_ (10 * Second) ;;
       match r with
       | Some errorbytes =>
           if 0 <? Z.of_nat (List.length errorbytes)
           then ret (Some (errors_New (string_of_list_byte errorbytes)))
           else ret None
       | None => ret (Some ErrTimeout)
       end)).
    preserve.
Qed.

Lemma preserves_GetCertificate : preserves GetCertificate.
Proof. unfold GetCertificate. preserve. Qed.

Lemma preserves_ConnectToCard id : preserves (ConnectToCard id).
Proof. unfold ConnectToCard, ConnectToCard_request. preserve. Qed.

Lemma preserves_ReceivePhonons d : preserves (ReceivePhonons d).
Proof. unfold ReceivePhonons. preserve. Qed.

Lemma exec_evolves k w : evolves (c w) (c (exec k w)).
Proof.
  destruct k; simpl.
  - apply preserves_Identify.
  - apply preserves_CardPair.
  - apply evolves_refl.
  - apply preserves_FinalizeCardPair.
  - apply preserves_GetCertificate.
  - apply preserves_ConnectToCard.
  - apply preserves_ReceivePhonons.
  - apply evolves_refl.
  - apply evolves_refl.
  - unfold Sleep. simpl. apply await_evolves. apply plain_no_chan.
Qed.

Lemma execs_evolves ks w : evolves (c w) (c (execs ks w)).
Proof.
  revert w. induction ks as [|k ks IH]; intros w; simpl.
  - apply evolves_refl.
  - eapply evolves_trans; [apply exec_evolves | apply IH].
Qed.

Ltac route :=
  intros m w w' Hn Hp; destruct w as [r t fr lg]; destruct m as [n p];
  destruct n; unfold named in Hn; simpl in Hn; try discriminate Hn;
  unfold_handlers; simpl in *; split_tests; reflexivity.

Lemma routes_remoteCertificateChan :
  routes remoteCertificateChan_ (named ResponseCertificate).
Proof. route. Qed.
Lemma routes_identifiedWithServerChan :
  routes identifiedWithServerChan_ (named MessageIdentifiedWithServer).
Proof. route. Qed.
Lemma routes_connectedToCardChan :
  routes connectedToCardChan_ (named MessageConnectedToCard).
Proof. route. Qed.
Lemma routes_cardPair1DataChan :
  routes cardPair1DataChan_ (named ResponseCardPair1).
Proof. route. Qed.
Lemma routes_finalizeCardPairDataChan :
  routes finalizeCardPairDataChan_ (named ResponseFinalizeCardPair).
Proof. route. Qed.
Lemma routes_phononAckChan :
  routes phononAckChan_ (named MessagePhononAck).
Proof. route. Qed.
(** No message at all is routed to the identity channel. *)
Lemma routes_remoteIdentityChan :
  routes remoteIdentityChan_ (fun _ => false).
Proof. route. Qed.

(** [process] leaves the clock and the stream of frames alone. *)
Lemma process_now_incoming m w w' :
  process m w = Some w' -> now w' = now w /\ incoming w' = incoming w.
Proof.
  intros Hp. destruct w as [r t fr lg]. destruct m as [n p].
  destruct n; unfold_handlers; simpl in *; split_tests; simpl; auto.
Qed.

(** ** Waiting *)

Lemma quiet_window_all q d fr : quiet d fr = true -> window_all q d fr = true.
Proof. destruct fr as [|[t f] rest]; simpl; auto. intros ->. reflexivity. Qed.

Lemma await_times_out {T} (ch : ChanRef T) reply :
  routes ch reply ->
  forall d fr w,
    get_chan ch (c w) = None ->
    window_all (fun m => negb (reply m)) d fr = true ->
    fst (await ch d fr w) = None /\ now (snd (await ch d fr w)) = d.
Proof.
  intros Hr d fr. induction fr as [|[t f] rest IH]; intros w He Hw; simpl.
  - rewrite He. simpl. auto.
  - rewrite He. simpl. simpl in Hw.
    destruct (d <=? t); simpl; auto.
    destruct (closed (conn (c w))); simpl; auto.
    destruct f as [m|]; simpl; auto.
    apply andb_prop in Hw. destruct Hw as [Hq Hw].
    destruct (process m _) as [w'|] eqn:Hp; simpl; auto.
    apply IH; auto.
    apply Hr in Hp.
    + rewrite Hp. simpl. exact He.
    + now destruct (reply m).
Qed.

(** A wait that times out has let the dispatch loop run, and nothing more. *)
Lemma await_timeout_is_sleep {T} (ch : ChanRef T) d fr w :
  fst (await ch d fr w) = None ->
  snd (await ch d fr w) = snd (await no_chan d fr w).
Proof.
  revert w. induction fr as [|[t f] rest IH]; intros w; simpl.
  - unfold chan_take. destruct (get_chan ch (c w)); simpl; congruence.
  - unfold chan_take. destruct (get_chan ch (c w)); simpl; [congruence|].
    destruct (d <=? t); simpl; auto.
    destruct (closed (conn (c w))); simpl; auto.
    destruct f as [m|]; simpl; auto.
    destruct (process m _) as [w'|]; simpl; auto.
Qed.

Lemma await_quiet {T} (ch : ChanRef T) d fr w :
  get_chan ch (c w) = None -> quiet d fr = true ->
  await ch d fr w = (None, set_now d (set_incoming fr w)).
Proof.
  intros He Hq. destruct fr as [|[t f] rest]; simpl in *; rewrite He; simpl.
  - reflexivity.
  - rewrite Hq. reflexivity.
Qed.

(** The next frame is in time and its handler puts [v] on the empty
    channel: the wait ends with [v]. *)
Lemma await_next {T} (ch : ChanRef T) d t m rest w w' v :
  get_chan ch (c w) = None ->
  t < d ->
  closed (conn (c w)) = false ->
  process m (set_now (Z.max (now w) t) (set_incoming rest w)) = Some w' ->
  get_chan ch (c w') = Some v ->
  await ch d ((t, Decoded m) :: rest) w
  = (Some v, set_incoming rest (upd_c (set_chan ch None) w')).
Proof.
  intros He Ht Hc Hp Hv. simpl. rewrite He. simpl.
  destruct (d <=? t) eqn:Hle; [apply Z.leb_le in Hle; lia|].
  rewrite Hc, Hp.
  destruct rest as [|x rest']; simpl; rewrite Hv; reflexivity.
Qed.

(** ** Executions *)

Lemma step_evolves w w' : step w w' -> evolves (c w) (c w').
Proof.
  intros [k | m w'' Hp].
  - apply exec_evolves.
  - exact (process_evolves m w w'' Hp).
Qed.

Lemma reach_evolves w w' : reach w w' -> evolves (c w) (c w').
Proof.
  induction 1 as [|w1 w2 _ IH Hs].
  - apply evolves_refl.
  - eapply evolves_trans; [exact IH | now apply step_evolves].
Qed.

Lemma execs_reach ks w : reach w (execs ks w).
Proof.
  unfold execs. rewrite <- fold_left_rev_right.
  induction (rev ks) as [|k l IH]; simpl.
  - constructor.
  - eapply reach_step; [exact IH | constructor].
Qed.

Lemma window_all_weaken (q1 q2 : Message -> bool) d fr :
  (forall m, q1 m = true -> q2 m = true) ->
  window_all q1 d fr = true -> window_all q2 d fr = true.
Proof.
  intros Hq. induction fr as [|[t f] rest IH]; simpl; auto.
  destruct (d <=? t); auto. destruct f as [m|]; auto.
  intros H. apply andb_prop in H. destruct H as [H1 H2].
  rewrite (Hq _ H1). simpl. auto.
Qed.

Lemma window_all_true d fr : window_all (fun _ => true) d fr = true.
Proof.
  induction fr as [|[t f] rest IH]; simpl; auto.
  destruct (d <=? t); auto. destruct f; auto.
Qed.

(** A wait on an empty channel during which no reply comes ends at the
    deadline without a value. *)
Lemma select_times_out {T} (ch : ChanRef T) reply d w :
  routes ch reply ->
  get_chan ch (c w) = None ->
  window_all (fun m => negb (reply m)) (now w + d) (incoming w) = true ->
  exists w', select_recv ch d w = (None, w') /\ now w' = now w + d.
Proof.
  intros Hr He Hw. unfold select_recv.
  destruct (await_times_out ch reply Hr (now w + d) (incoming w) w He Hw)
    as [H1 H2].
  destruct (await ch (now w + d) (incoming w) w) as [r w']. simpl in *.
  subst r. exists w'. auto.
Qed.

Lemma select_quiet {T} (ch : ChanRef T) d w :
  get_chan ch (c w) = None ->
  quiet (now w + d) (incoming w) = true ->
  select_recv ch d w = (None, set_now (now w + d) w).
Proof.
  intros He Hq. unfold select_recv. rewrite await_quiet by assumption.
  destruct w; reflexivity.
Qed.

(** ** Identification *)

Lemma Identify_times_out nonce w :
  remoteIdentityChan (c w) = None ->
  fst (Identify nonce w) = Some ErrTimeout /\
  now (snd (Identify nonce w)) = now w + 10 * Second.
Proof.
  intros He. unfold Identify, sendMessage, bind, modify, log. simpl.
  match goal with |- context [select_recv ?ch ?d ?w1] =>
    destruct (select_times_out ch (fun _ => false) d w1
                routes_remoteIdentityChan) as (w' & Hs & Hn);
      [ unfold wrote; simpl; destruct (closed (conn (c w))); simpl; exact He
      | apply window_all_true
      | rewrite Hs ]
  end.
  simpl. split; [reflexivity | exact Hn].
Qed.

(** C2. On a connection made by [Connect], after any calls of the caller
    and any messages handled by the dispatch loop, [Identify] returns the
    Timeout error, ten seconds after it was called: nothing is ever put on
    [remoteIdentityChan] ([routes_remoteIdentityChan]), whatever the peer
    sends. *)
Theorem Identify_never_succeeds addr s t0 stream w nonce :
  reach (Connect addr s t0 stream) w ->
  fst (Identify nonce w) = Some ErrTimeout /\
  now (snd (Identify nonce w)) = now w + 10 * Second.
Proof.
  intros Hr. apply Identify_times_out.
  apply reach_evolves in Hr. now apply (ev_remoteIdentityChan _ _ Hr).
Qed.

(** ** The flags *)

(** C10. On a connection made by [Connect], along any sequence of calls
    and handled messages, a flag that is set stays set; once
    [pairFinalized] is set, the session's [RemoteCard] is this connection
    and stays so. *)
Theorem flags_only_rise addr s t0 stream w w' :
  reach (Connect addr s t0 stream) w ->
  reach w w' ->
  (identifiedWithServer (c w) = true -> identifiedWithServer (c w') = true) /\
  (verified (c w) = true -> verified (c w') = true) /\
  (pairFinalized (c w) = true ->
     pairFinalized (c w') = true /\
     self (c w') = self (c w) /\
     RemoteCard (session (c w)) = Some (self (c w)) /\
     RemoteCard (session (c w')) = Some (self (c w))).
Proof.
  intros H0 H1. apply reach_evolves in H0, H1.
  split; [exact (ev_identifiedWithServer _ _ H1)|].
  split; [exact (ev_verified _ _ H1)|].
  intros Hpf.
  assert (Hb : RemoteCard (session (c w)) = Some (self (c w))).
  { apply (ev_bound _ _ H0); [simpl; discriminate | exact Hpf]. }
  split; [exact (ev_pairFinalized _ _ H1 Hpf)|].
  split; [exact (ev_self _ _ H1)|].
  split; [exact Hb|].
  exact (ev_RemoteCard _ _ H1 Hb).
Qed.

(** ** The certificate *)

Lemma GetCertificate_cached w cert :
  remoteCertificate (c w) = Some cert ->
  GetCertificate w = ((Some cert, None), w).
Proof.
  intros Hc. unfold GetCertificate, bind, read, ret. rewrite Hc. reflexivity.
Qed.

Lemma GetCertificate_fetch w t p rest cert :
  remoteCertificate (c w) = None ->
  remoteCertificateChan (c w) = None ->
  closed (conn (c w)) = false ->
  incoming w = (t, Decoded (mkMessage ResponseCertificate p)) :: rest ->
  t < now w + 10 * Second ->
  cert_ParseRawCardCertificate p = inr cert ->
  fst (GetCertificate w) = (Some cert, None) /\
  remoteCertificate (c (snd (GetCertificate w))) = Some cert /\
  written (conn (c (snd (GetCertificate w))))
  = written (conn (c w)) ++ [mkMessage RequestCertificate []].
Proof.
  intros Hc He Hcl Hin Ht Hp.
  unfold GetCertificate, sendMessage, bind, read, ret, modify, log, upd_c,
    select_recv.
  cbn [fst snd c now incoming logged].
  rewrite Hc, Hin. unfold wrote. rewrite Hcl.
  erewrite await_next; cycle 1.
  - simpl. exact He.
  - exact Ht.
  - reflexivity.
  - unfold_handlers. unfold set_now, set_incoming. simpl. rewrite Hp. simpl. rewrite He. reflexivity.
  - reflexivity.
  - simpl. auto.
Qed.

(** C7. With a certificate in the cache, [GetCertificate] returns it and
    leaves the world as it is: nothing is written to the stream and nothing
    is waited for.  The first response that parses fills the cache, so the
    next call is answered from it.  A cache that is set is never empty
    again, whatever is called or received. *)
Theorem GetCertificate_idempotent w :
  (forall cert,
     remoteCertificate (c w) = Some cert ->
     GetCertificate w = ((Some cert, None), w)) /\
  (forall t p rest cert,
     remoteCertificate (c w) = None ->
     remoteCertificateChan (c w) = None ->
     closed (conn (c w)) = false ->
     incoming w = (t, Decoded (mkMessage ResponseCertificate p)) :: rest ->
     t < now w + 10 * Second ->
     cert_ParseRawCardCertificate p = inr cert ->
     let w1 := snd (GetCertificate w) in
     fst (GetCertificate w) = (Some cert, None) /\
     remoteCertificate (c w1) = Some cert /\
     written (conn (c w1)) = written (conn (c w)) ++ [mkMessage RequestCertificate []] /\
     GetCertificate w1 = ((Some cert, None), w1)) /\
  (forall w',
     reach w w' ->
     remoteCertificate (c w) <> None -> remoteCertificate (c w') <> None).
Proof.
  split; [|split].
  - intros cert. apply GetCertificate_cached.
  - intros t p rest cert Hc He Hcl Hin Ht Hp w1.
    destruct (GetCertificate_fetch w t p rest cert Hc He Hcl Hin Ht Hp)
      as (H1 & H2 & H3).
    repeat split; auto. now apply GetCertificate_cached.
  - intros w' Hr. apply reach_evolves in Hr.
    exact (ev_remoteCertificate _ _ Hr).
Qed.

(** ** Finalizing the pairing *)

Lemma FinalizeCardPair_finalized d w :
  pairFinalized (c w) = true ->
  fst (FinalizeCardPair d w) = None /\
  now (snd (FinalizeCardPair d w)) = now w /\
  incoming (snd (FinalizeCardPair d w)) = incoming w.
Proof.
  intros Hpf.
  unfold FinalizeCardPair, sendMessage, bind, read, ret, modify, log, upd_c.
  cbn [fst snd c now incoming logged].
  replace (pairFinalized (wrote RequestFinalizeCardPair d (c w))) with true
    by (unfold wrote; destruct (closed (conn (c w))); simpl; auto).
  simpl. auto.
Qed.

Lemma FinalizeCardPair_response d w t p rest :
  pairFinalized (c w) = false ->
  finalizeCardPairDataChan (c w) = None ->
  closed (conn (c w)) = false ->
  incoming w = (t, Decoded (mkMessage ResponseFinalizeCardPair p)) :: rest ->
  t < now w + 10 * Second ->
  fst (FinalizeCardPair d w)
  = match p with
    | [] => None
    | _ => Some (errors_New (string_of_list_byte p))
    end /\
  pairFinalized (c (snd (FinalizeCardPair d w))) = false /\
  RemoteCard (session (c (snd (FinalizeCardPair d w))))
  = RemoteCard (session (c w)).
Proof.
  intros Hpf He Hcl Hin Ht.
  unfold FinalizeCardPair, sendMessage, bind, read, ret, modify, log, upd_c,
    select_recv.
  cbn [fst snd c now incoming logged].
  unfold wrote. rewrite Hcl. cbn [pairFinalized set_conn]. rewrite Hpf.
  cbn [negb]. cbn [fst snd c now incoming logged]. rewrite Hin.
  erewrite await_next; cycle 1.
  - simpl. exact He.
  - exact Ht.
  - reflexivity.
  - unfold_handlers. unfold set_now, set_incoming. simpl. rewrite He.
    reflexivity.
  - reflexivity.
  - destruct p; simpl; auto.
Qed.

Lemma FinalizeCardPair_timeout d w :
  pairFinalized (c w) = false ->
  finalizeCardPairDataChan (c w) = None ->
  window_all (fun m => negb (named ResponseFinalizeCardPair m))
    (now w + 10 * Second) (incoming w) = true ->
  fst (FinalizeCardPair d w) = Some ErrTimeout /\
  now (snd (FinalizeCardPair d w)) = now w + 10 * Second.
Proof.
  intros Hpf He Hw.
  unfold FinalizeCardPair, sendMessage, bind, read, ret, modify, log, upd_c.
  cbn [fst snd c now incoming logged].
  replace (pairFinalized (wrote RequestFinalizeCardPair d (c w))) with false
    by (unfold wrote; destruct (closed (conn (c w))); simpl; auto).
  cbn [negb].
  match goal with |- context [select_recv ?ch ?dl ?w1] =>
    destruct (select_times_out ch _ dl w1 routes_finalizeCardPairDataChan)
      as (w' & Hs & Hn);
      [ unfold wrote; simpl; destruct (closed (conn (c w))); simpl; exact He
      | exact Hw
      | rewrite Hs ]
  end.
  simpl. auto.
Qed.

Lemma FinalizeCardPair_buffered d w p :
  pairFinalized (c w) = false ->
  finalizeCardPairDataChan (c w) = Some p ->
  fst (FinalizeCardPair d w)
  = match p with
    | [] => None
    | _ => Some (errors_New (string_of_list_byte p))
    end /\
  now (snd (FinalizeCardPair d w)) = now w /\
  incoming (snd (FinalizeCardPair d w)) = incoming w.
Proof.
  intros Hpf Hp.
  unfold FinalizeCardPair, sendMessage, bind, read, ret, modify, log, upd_c,
    select_recv.
  cbn [fst snd c now incoming logged].
  replace (pairFinalized (wrote RequestFinalizeCardPair d (c w))) with false
    by (unfold wrote; destruct (closed (conn (c w))); simpl; auto).
  cbn [negb].
  assert (Hp' : finalizeCardPairDataChan
                  (wrote RequestFinalizeCardPair d (c w)) = Some p)
    by (unfold wrote; destruct (closed (conn (c w))); simpl; exact Hp).
  destruct (incoming w) as [|[t f] rest]; simpl; rewrite Hp'; simpl;
    destruct p; simpl; auto.
Qed.

(** C5, as the code has it.  [FinalizeCardPair] on the initiator's side:
    with [pairFinalized] set it returns nil at once (the clock has not
    moved, no frame was consumed).  Otherwise a response that is already in
    the channel, left there by an earlier exchange, is taken at once and
    decides; on an empty channel the finalize-pair response that comes
    next within ten seconds decides (nil for an empty payload, an error
    with the payload as its text otherwise), and without a response within
    ten seconds the call returns the Timeout error at the deadline. *)
Theorem FinalizeCardPair_initiator d w :
  (pairFinalized (c w) = true ->
     fst (FinalizeCardPair d w) = None /\
     now (snd (FinalizeCardPair d w)) = now w /\
     incoming (snd (FinalizeCardPair d w)) = incoming w) /\
  (pairFinalized (c w) = false ->
   finalizeCardPairDataChan (c w) = None ->
     (forall t p rest,
        closed (conn (c w)) = false ->
        incoming w = (t, Decoded (mkMessage ResponseFinalizeCardPair p)) :: rest ->
        t < now w + 10 * Second ->
        fst (FinalizeCardPair d w)
        = match p with
          | [] => None
          | _ => Some (errors_New (string_of_list_byte p))
          end) /\
     (window_all (fun m => negb (named ResponseFinalizeCardPair m))
        (now w + 10 * Second) (incoming w) = true ->
      fst (FinalizeCardPair d w) = Some ErrTimeout /\
      now (snd (FinalizeCardPair d w)) = now w + 10 * Second)) /\
  (pairFinalized (c w) = false ->
   forall p,
     finalizeCardPairDataChan (c w) = Some p ->
     fst (FinalizeCardPair d w)
     = match p with
       | [] => None
       | _ => Some (errors_New (string_of_list_byte p))
       end /\
     now (snd (FinalizeCardPair d w)) = now w /\
     incoming (snd (FinalizeCardPair d w)) = incoming w).
Proof.
  split; [|split].
  - apply FinalizeCardPair_finalized.
  - intros Hpf He. split.
    + intros t p rest Hcl Hin Ht.
      now destruct (FinalizeCardPair_response d w t p rest Hpf He Hcl Hin Ht).
    + now apply FinalizeCardPair_timeout.
  - intros Hpf p Hp. now apply FinalizeCardPair_buffered.
Qed.

(** ** Connecting to a card *)

Lemma select_evolves {T} (ch : ChanRef T) d w r w' :
  plain_chan ch -> select_recv ch d w = (r, w') -> evolves (c w) (c w').
Proof.
  intros Hp Hs. pose proof (preserves_select ch d Hp w) as H.
  rewrite Hs in H. exact H.
Qed.

Lemma ConnectToCard_identified id w :
  identifiedWithServer (c w) = true ->
  ConnectToCard id w = ConnectToCard_request id w.
Proof.
  intros Hi. unfold ConnectToCard, bind, read. cbn [fst snd].
  rewrite Hi. reflexivity.
Qed.

Lemma ConnectToCard_request_connected id w t p rest :
  connectedToCardChan (c w) = None ->
  closed (conn (c w)) = false ->
  incoming w = (t, Decoded (mkMessage MessageConnectedToCard p)) :: rest ->
  t < now w + 10 * Second ->
  fst (ConnectToCard_request id w) = None /\
  closed (conn (c (snd (ConnectToCard_request id w)))) = false /\
  written (conn (c (snd (ConnectToCard_request id w))))
  = written (conn (c w))
    ++ [mkMessage RequestConnectCard2Card (list_byte_of_string id)].
Proof.
  intros He Hcl Hin Ht.
  unfold ConnectToCard_request, sendMessage, bind, read, ret, modify, log,
    upd_c, select_recv.
  cbn [fst snd c now incoming logged].
  unfold wrote. rewrite Hcl, Hin.
  erewrite await_next; cycle 1.
  - simpl. exact He.
  - exact Ht.
  - reflexivity.
  - unfold_handlers. unfold set_now, set_incoming. simpl. rewrite He.
    reflexivity.
  - reflexivity.
  - simpl. auto.
Qed.

Lemma ConnectToCard_request_timeout id w :
  connectedToCardChan (c w) = None ->
  window_all (fun m => negb (named MessageConnectedToCard m))
    (now w + 10 * Second) (incoming w) = true ->
  fst (ConnectToCard_request id w) = Some ErrTimeout /\
  closed (conn (c (snd (ConnectToCard_request id w)))) = true /\
  now (snd (ConnectToCard_request id w)) = now w + 10 * Second /\
  (closed (conn (c w)) = false ->
   exists l,
     written (conn (c (snd (ConnectToCard_request id w))))
     = written (conn (c w))
       ++ mkMessage RequestConnectCard2Card (list_byte_of_string id) :: l).
Proof.
  intros He Hw.
  unfold ConnectToCard_request, sendMessage, bind, read, ret, modify, log,
    upd_c.
  cbn [fst snd c now incoming logged].
  match goal with |- context [select_recv ?ch ?dl ?w1] =>
    destruct (select_times_out ch _ dl w1 routes_connectedToCardChan)
      as (w' & Hs & Hn);
      [ unfold wrote; simpl; destruct (closed (conn (c w))); simpl; exact He
      | exact Hw
      | rewrite Hs; apply select_evolves in Hs;
        [ | apply plain_connectedToCardChan ] ]
  end.
  cbn [fst snd c now incoming logged conn closed written set_conn].
  repeat split; auto.
  intros Hcl. destruct (ev_written _ _ Hs) as [l Hl].
  exists l. rewrite Hl. cbn [c]. unfold wrote. rewrite Hcl. simpl.
  now rewrite <- app_assoc.
Qed.

Lemma ConnectToCard_unidentified_timeout id w :
  identifiedWithServer (c w) = false ->
  identifiedWithServerChan (c w) = None ->
  window_all (fun m => negb (named MessageIdentifiedWithServer m))
    (now w + 10 * Second) (incoming w) = true ->
  fst (ConnectToCard id w) = Some ErrTimeout /\
  snd (ConnectToCard id w) = snd (Sleep (10 * Second) w).
Proof.
  intros Hi He Hw.
  unfold ConnectToCard, bind, read, Sleep, select_recv.
  cbn [fst snd]. rewrite Hi. cbn [negb].
  destruct (await_times_out identifiedWithServerChan_ _
              routes_identifiedWithServerChan _ _ w He Hw) as [H1 _].
  pose proof (await_timeout_is_sleep identifiedWithServerChan_
                (now w + 10 * Second) (incoming w) w H1) as H2.
  destruct (await identifiedWithServerChan_ _ _ w) as [r w'].
  simpl in H1, H2. subst r. simpl. auto.
Qed.

Lemma ConnectToCard_notified id w t p rest :
  identifiedWithServer (c w) = false ->
  identifiedWithServerChan (c w) = None ->
  closed (conn (c w)) = false ->
  incoming w = (t, Decoded (mkMessage MessageIdentifiedWithServer p)) :: rest ->
  t < now w + 10 * Second ->
  ConnectToCard id w
  = ConnectToCard_request id
      (mkWorld (set_identifiedWithServer true (c w)) (Z.max (now w) t) rest
         (logged w ++ [(LInfo, ["received Identified with server"%string])])).
Proof.
  intros Hi He Hcl Hin Ht.
  unfold ConnectToCard, bind, read, select_recv.
  cbn [fst snd]. rewrite Hi. cbn [negb]. rewrite Hin.
  erewrite await_next; cycle 1.
  - exact He.
  - exact Ht.
  - exact Hcl.
  - unfold_handlers. unfold set_now, set_incoming. simpl. rewrite He.
    reflexivity.
  - reflexivity.
  - unfold log, upd_c, set_incoming. simpl.
    f_equal. f_equal. destruct w as [r n fr lg]. destruct r. simpl in *.
    subst. reflexivity.
Qed.

(** C9. [ConnectToCard]: while [identifiedWithServer] is not set it first
    waits for the notification, and without one within ten seconds it
    returns the Timeout error having done nothing but let the dispatch loop
    run; then it writes the connect-to-card request naming [id] and waits
    for the connected-to-card notification: with it the call returns nil
    and the stream stays open, without it within ten seconds the stream is
    closed and the call returns the Timeout error. *)
Theorem ConnectToCard_two_waits id w :
  let request := mkMessage RequestConnectCard2Card (list_byte_of_string id) in
  let w' := snd (ConnectToCard id w) in
  (identifiedWithServer (c w) = false ->
   identifiedWithServerChan (c w) = None ->
   window_all (fun m => negb (named MessageIdentifiedWithServer m))
     (now w + 10 * Second) (incoming w) = true ->
   fst (ConnectToCard id w) = Some ErrTimeout /\
   w' = snd (Sleep (10 * Second) w)) /\
  (identifiedWithServer (c w) = true ->
   connectedToCardChan (c w) = None ->
   (forall t p rest,
      closed (conn (c w)) = false ->
      incoming w = (t, Decoded (mkMessage MessageConnectedToCard p)) :: rest ->
      t < now w + 10 * Second ->
      fst (ConnectToCard id w) = None /\
      closed (conn (c w')) = false /\
      written (conn (c w')) = written (conn (c w)) ++ [request]) /\
   (window_all (fun m => negb (named MessageConnectedToCard m))
      (now w + 10 * Second) (incoming w) = true ->
    fst (ConnectToCard id w) = Some ErrTimeout /\
    closed (conn (c w')) = true /\
    now w' = now w + 10 * Second /\
    (closed (conn (c w)) = false ->
     exists l, written (conn (c w')) = written (conn (c w)) ++ request :: l))) /\
  (identifiedWithServer (c w) = false ->
   identifiedWithServerChan (c w) = None ->
   connectedToCardChan (c w) = None ->
   closed (conn (c w)) = false ->
   forall t1 p1 rest,
     incoming w
     = (t1, Decoded (mkMessage MessageIdentifiedWithServer p1)) :: rest ->
     t1 < now w + 10 * Second ->
     (forall t2 p2 rest',
        rest = (t2, Decoded (mkMessage MessageConnectedToCard p2)) :: rest' ->
        t2 < Z.max (now w) t1 + 10 * Second ->
        fst (ConnectToCard id w) = None /\
        closed (conn (c w')) = false /\
        written (conn (c w')) = written (conn (c w)) ++ [request]) /\
     (window_all (fun m => negb (named MessageConnectedToCard m))
        (Z.max (now w) t1 + 10 * Second) rest = true ->
      fst (ConnectToCard id w) = Some ErrTimeout /\
      closed (conn (c w')) = true /\
      now w' = Z.max (now w) t1 + 10 * Second /\
      exists l, written (conn (c w')) = written (conn (c w)) ++ request :: l)).
Proof.
  intros request w'. subst w'. split; [|split].
  - apply ConnectToCard_unidentified_timeout.
  - intros Hi He. rewrite (ConnectToCard_identified id w Hi). split.
    + intros t p rest. now apply ConnectToCard_request_connected.
    + now apply ConnectToCard_request_timeout.
  - intros Hi He1 He2 Hcl t1 p1 rest Hin Ht1.
    rewrite (ConnectToCard_notified id w t1 p1 rest Hi He1 Hcl Hin Ht1).
    split.
    + intros t2 p2 rest' Hrest Ht2.
      match goal with |- context [ConnectToCard_request id ?v] =>
        destruct (ConnectToCard_request_connected id v t2 p2 rest')
          as (H1 & H2 & H3); [ exact He2 | exact Hcl | exact Hrest | exact Ht2 | ]
      end.
      repeat split; auto.
    + intros Hw.
      match goal with |- context [ConnectToCard_request id ?v] =>
        destruct (ConnectToCard_request_timeout id v) as (H1 & H2 & H3 & H4);
          [ exact He2 | exact Hw | ]
      end.
      repeat split; auto.
Qed.

(** ** Timeouts *)

Lemma routes_weaken {T} (ch : ChanRef T) (r1 r2 : Message -> bool) :
  (forall m, r2 m = false -> r1 m = false) -> routes ch r1 -> routes ch r2.
Proof. intros Hw Hr m w w' Hm. apply Hr. now apply Hw. Qed.

Lemma is_empty_None {T} (ch : option T) : is_empty ch = true -> ch = None.
Proof. destruct ch; simpl; congruence. Qed.

Lemma wrote_chan {T} (get : RemoteConnection -> T) n p r :
  (forall v r0, get (set_conn v r0) = get r0) -> get (wrote n p r) = get r.
Proof. intros H. unfold wrote. destruct (closed (conn r)); auto. Qed.

(** What [timed_out] leaves alone. *)
Lemma timed_out_frame k r :
  identifiedWithServer (timed_out k r) = identifiedWithServer r /\
  verified (timed_out k r) = verified r /\
  pairFinalized (timed_out k r) = pairFinalized r /\
  remoteCertificate (timed_out k r) = remoteCertificate r /\
  session (timed_out k r) = session r.
Proof.
  destruct r; destruct k; simpl; unfold wrote; simpl;
    repeat match goal with
    | |- context [if ?b then _ else _] => destruct b; simpl
    end; auto.
Qed.

Ltac times_out w R He Hw :=
  match goal with |- context [select_recv ?ch ?dl ?w1] =>
    let w' := fresh "w'" in
    let Hs := fresh "Hs" in
    let Hn := fresh "Hn" in
    destruct (select_times_out ch _ dl w1 R) as (w' & Hs & Hn);
      [ unfold wrote; simpl; destruct (closed (conn (c w))); simpl; exact He
      | exact Hw
      | rewrite Hs; simpl; auto ]
  end.

Ltac stays_quiet w He Hq :=
  rewrite select_quiet;
    [ reflexivity
    | unfold wrote; simpl; destruct (closed (conn (c w))); simpl; exact He
    | exact Hq ].

Lemma timeout_result k w :
  waits k (c w) = true ->
  window_all (fun m => negb (reply_to k (c w) m))
    (now w + 10 * Second) (incoming w) = true ->
  result k w = Some ErrTimeout /\
  now (exec k w) = now w + 10 * Second.
Proof.
  intros Hwt Hw. destruct k; simpl in Hwt, Hw; try discriminate Hwt.
  - apply is_empty_None in Hwt. apply Identify_times_out. exact Hwt.
  - apply is_empty_None in Hwt. simpl.
    unfold CardPair, sendMessage, bind, read, ret, modify, log, upd_c.
    cbn [fst snd c now incoming logged].
    times_out w routes_cardPair1DataChan Hwt Hw.
  - apply andb_prop in Hwt. destruct Hwt as [Hpf He].
    apply is_empty_None in He. apply negb_true_iff in Hpf.
    apply FinalizeCardPair_timeout; assumption.
  - apply andb_prop in Hwt. destruct Hwt as [Hc He].
    apply is_empty_None in He, Hc. simpl.
    unfold GetCertificate, sendMessage, bind, read, ret, modify, log, upd_c.
    cbn [fst snd c now incoming logged]. rewrite Hc.
    times_out w routes_remoteCertificateChan He Hw.
  - simpl. destruct (identifiedWithServer (c w)) eqn:Hi.
    + apply is_empty_None in Hwt.
      rewrite (ConnectToCard_identified cardID w Hi).
      destruct (ConnectToCard_request_timeout cardID w Hwt Hw)
        as (H1 & _ & H3 & _). auto.
    + apply is_empty_None in Hwt.
      unfold ConnectToCard, bind, read. cbn [fst snd]. rewrite Hi.
      cbn [negb].
      times_out w routes_identifiedWithServerChan Hwt Hw.
  - apply is_empty_None in Hwt. simpl.
    unfold ReceivePhonons, sendMessage, bind, read, ret, modify, log, upd_c.
    cbn [fst snd c now incoming logged].
    times_out w routes_phononAckChan Hwt Hw.
Qed.

Lemma timeout_quiet k w :
  waits k (c w) = true ->
  quiet (now w + 10 * Second) (incoming w) = true ->
  c (exec k w) = timed_out k (c w).
Proof.
  intros Hwt Hq. destruct k; simpl in Hwt; try discriminate Hwt; simpl.
  - apply is_empty_None in Hwt.
    unfold Identify, sendMessage, bind, read, ret, modify, log, upd_c.
    cbn [fst snd c now incoming logged].
    stays_quiet w Hwt Hq.
  - apply is_empty_None in Hwt.
    unfold CardPair, sendMessage, bind, read, ret, modify, log, upd_c.
    cbn [fst snd c now incoming logged].
    stays_quiet w Hwt Hq.
  - apply andb_prop in Hwt. destruct Hwt as [Hpf He].
    apply is_empty_None in He. apply negb_true_iff in Hpf.
    unfold FinalizeCardPair, sendMessage, bind, read, ret, modify, log, upd_c.
    cbn [fst snd c now incoming logged].
    replace (pairFinalized (wrote RequestFinalizeCardPair cardPair2Data (c w)))
      with false
      by (unfold wrote; destruct (closed (conn (c w))); simpl; auto).
    cbn [negb].
    stays_quiet w He Hq.
  - apply andb_prop in Hwt. destruct Hwt as [Hc He].
    apply is_empty_None in He, Hc.
    unfold GetCertificate, sendMessage, bind, read, ret, modify, log, upd_c.
    cbn [fst snd c now incoming logged]. rewrite Hc.
    stays_quiet w He Hq.
  - destruct (identifiedWithServer (c w)) eqn:Hi.
    + apply is_empty_None in Hwt.
      rewrite (ConnectToCard_identified cardID w Hi).
      unfold ConnectToCard_request, sendMessage, bind, read, ret, modify, log,
        upd_c.
      cbn [fst snd c now incoming logged].
      stays_quiet w Hwt Hq.
    + apply is_empty_None in Hwt.
      unfold ConnectToCard, bind, read. cbn [fst snd]. rewrite Hi.
      cbn [negb].
      rewrite select_quiet; [reflexivity | exact Hwt | exact Hq].
  - apply is_empty_None in Hwt.
    unfold ReceivePhonons, sendMessage, bind, read, ret, modify, log, upd_c.
    cbn [fst snd c now incoming logged].
    stays_quiet w Hwt Hq.
Qed.

(** C6, as the code has it.  A call that starts by waiting on an empty
    channel and gets no reply within ten seconds returns the Timeout error
    at the deadline.  When nothing at all reaches the decoder in that time,
    the connection is then what [timed_out] says: the request is written,
    [Identify] has stored its nonce, [ConnectToCard] has closed the stream
    if it had sent its request; flags, cached certificate and session are
    as before. *)
Theorem timeout_leaves_connection k w :
  waits k (c w) = true ->
  window_all (fun m => negb (reply_to k (c w) m))
    (now w + 10 * Second) (incoming w) = true ->
  result k w = Some ErrTimeout /\
  now (exec k w) = now w + 10 * Second /\
  (quiet (now w + 10 * Second) (incoming w) = true ->
   c (exec k w) = timed_out k (c w) /\
   identifiedWithServer (c (exec k w)) = identifiedWithServer (c w) /\
   verified (c (exec k w)) = verified (c w) /\
   pairFinalized (c (exec k w)) = pairFinalized (c w) /\
   remoteCertificate (c (exec k w)) = remoteCertificate (c w) /\
   session (c (exec k w)) = session (c w)).
Proof.
  intros Hwt Hw.
  destruct (timeout_result k w Hwt Hw) as [H1 H2].
  split; [exact H1 | split; [exact H2 |]].
  intros Hq. rewrite (timeout_quiet k w Hwt Hq).
  split; [reflexivity | apply timed_out_frame].
Qed.

(** ** The identify exchange *)

Lemma await_one {T} (ch : ChanRef T) d t m rest w w' :
  get_chan ch (c w) = None ->
  t < d ->
  closed (conn (c w)) = false ->
  process m (set_now (Z.max (now w) t) (set_incoming rest w)) = Some w' ->
  await ch d ((t, Decoded m) :: rest) w = await ch d rest w'.
Proof.
  intros He Ht Hc Hp. simpl. rewrite He. simpl.
  destruct (d <=? t) eqn:Hle; [apply Z.leb_le in Hle; lia|].
  now rewrite Hc, Hp.
Qed.

(** [processIdentify]: the flag is set when the response validates over
    the stored nonce; otherwise the connection is untouched and one error
    line is logged. *)
Lemma processIdentify_spec msg w :
  let w' := snd (processIdentify msg w) in
  c w' = (if validates (Payload msg) (counterpartyNonce (c w))
          then set_verified true (c w) else c w) /\
  now w' = now w /\ incoming w' = incoming w /\
  (validates (Payload msg) (counterpartyNonce (c w)) = false ->
   exists args, logged w' = logged w ++ [(LError, args)]).
Proof.
  unfold processIdentify, validates, bind, read, modify, log, upd_c.
  destruct (card_ParseIdentifyCardResponse (Payload msg)) as [e|[key sig]];
    simpl.
  - repeat split; auto. intros _. eexists. reflexivity.
  - destruct (ecdsa_Verify key (counterpartyNonce (c w)) (sig_R sig) (sig_S sig));
      simpl; repeat split; auto; try discriminate.
    intros _. eexists. reflexivity.
Qed.

Lemma await_one_then_quiet {T} (ch : ChanRef T) d t m rest w w' :
  get_chan ch (c w) = None ->
  t < d ->
  closed (conn (c w)) = false ->
  process m (set_now (Z.max (now w) t) (set_incoming rest w)) = Some w' ->
  get_chan ch (c w') = None ->
  quiet d rest = true ->
  await ch d ((t, Decoded m) :: rest) w
  = (None, set_now d (set_incoming rest w')).
Proof.
  intros He Ht Hc Hp He' Hq.
  rewrite (await_one ch d t m rest w w' He Ht Hc Hp).
  now apply await_quiet.
Qed.

(** C1, as the code has it.  Processing an identify-response leaves
    [verified] set when it was set, and otherwise sets it exactly when the
    response parses and its signature verifies over the stored nonce.  In
    an identify exchange whose response is the only frame of the window,
    the request carries the nonce that is stored, and [verified] is set
    afterwards exactly when it was set before or the response validates
    over that nonce; with a response that does not validate the flag is
    left as it was and [Identify] returns an error, the Timeout error, to
    its caller. *)
Theorem Identify_sets_verified nonce w t payload rest :
  (forall msg v,
     verified (c (snd (processIdentify msg v)))
     = verified (c v) || validates (Payload msg) (counterpartyNonce (c v))) /\
  (remoteIdentityChan (c w) = None ->
   closed (conn (c w)) = false ->
   incoming w = (t, Decoded (mkMessage ResponseIdentify payload)) :: rest ->
   t < now w + 10 * Second ->
   quiet (now w + 10 * Second) rest = true ->
   let w' := snd (Identify nonce w) in
   written (conn (c w')) = written (conn (c w)) ++ [mkMessage RequestIdentify nonce] /\
   counterpartyNonce (c w') = nonce /\
   (verified (c w') = true <->
    verified (c w) = true \/ validates payload nonce = true) /\
   (validates payload nonce = false ->
    verified (c w') = verified (c w) /\
    fst (Identify nonce w) = Some ErrTimeout)).
Proof.
  split.
  { intros msg v. destruct (processIdentify_spec msg v) as (Hc & _).
    rewrite Hc.
    destruct (validates (Payload msg) (counterpartyNonce (c v))); simpl.
    - now rewrite orb_true_r.
    - now rewrite orb_false_r. }
  intros He Hcl Hin Ht Hq.
  set (msg := mkMessage ResponseIdentify payload).
  set (w1 := mkWorld
               (set_conn (mkConn false (written (conn (c w))
                                        ++ [mkMessage RequestIdentify nonce]))
                  (set_counterpartyNonce nonce (c w)))
               (now w) (incoming w)
               (logged w ++ [(LDebug, [string_of_list_byte nonce])])).
  set (wp := snd (processIdentify msg
                    (set_now (Z.max (now w1) t) (set_incoming rest w1)))).
  destruct (processIdentify_spec msg
              (set_now (Z.max (now w1) t) (set_incoming rest w1)))
    as (Hc & _ & _ & Hl).
  fold wp in Hc, Hl.
  change (c (set_now (Z.max (now w1) t) (set_incoming rest w1)))
    with (c w1) in Hc, Hl.
  change (logged (set_now (Z.max (now w1) t) (set_incoming rest w1)))
    with (logged w1) in Hl.
  change (counterpartyNonce (c w1)) with nonce in Hc, Hl.
  change (Payload msg) with payload in Hc, Hl.
  assert (HI : Identify nonce w
               = (Some ErrTimeout,
                  set_now (now w + 10 * Second) (set_incoming rest wp))).
  { unfold Identify, sendMessage, bind, read, ret, modify, log, upd_c,
      select_recv.
    cbn [fst snd c now incoming logged].
    unfold wrote. cbn [conn closed set_counterpartyNonce]. rewrite Hcl.
    fold w1. rewrite Hin.
    rewrite (await_one_then_quiet remoteIdentityChan_ _ t msg rest w1 wp);
      auto.
    cbn [get_chan remoteIdentityChan_]. rewrite Hc.
    destruct (validates payload nonce); exact He. }
  intros w'. subst w'. rewrite HI. cbn [snd c set_now set_incoming logged].
  rewrite Hc.
  destruct (validates payload nonce) eqn:Hv; cbn.
  - repeat split; auto; discriminate.
  - repeat split; auto.
    intros [H|H]; [exact H | discriminate H].
Qed.

(** ** The responder's side of identification and of finalizing *)

(** C8 (the code departs from it).  The identify-response written by
    [sendIdentify] is the gob encoding of the signature the session made
    over the nonce of the request, and nothing else: the public key the
    session returned is dropped. *)
Theorem sendIdentify_payload msg w key sig h' :
  session_IdentifyCard (hw (session (c w))) (Payload msg)
  = ((key, sig, None), h') ->
  closed (conn (c w)) = false ->
  written (conn (c (snd (sendIdentify msg w))))
  = written (conn (c w)) ++ [mkMessage ResponseIdentify (gob_Encode sig)].
Proof.
  intros Hs Hcl.
  unfold sendIdentify, call_session, sendMessage, bind, modify, log, upd_c,
    wrote.
  rewrite Hs. simpl. rewrite Hcl. reflexivity.
Qed.

Lemma processFinalizeCardPair_responder msg w :
  closed (conn (c w)) = false ->
  let w' := snd (processFinalizeCardPair msg w) in
  match fst (session_FinalizeCardPair (hw (session (c w))) (Payload msg)) with
  | None =>
      written (conn (c w'))
      = written (conn (c w)) ++ [mkMessage ResponseFinalizeCardPair []] /\
      pairFinalized (c w') = true /\
      RemoteCard (session (c w')) = Some (self (c w))
  | Some e =>
      written (conn (c w'))
      = written (conn (c w))
        ++ [mkMessage ResponseFinalizeCardPair (list_byte_of_string (Error e))] /\
      pairFinalized (c w') = pairFinalized (c w) /\
      RemoteCard (session (c w')) = RemoteCard (session (c w))
  end.
Proof.
  intros Hcl.
  unfold processFinalizeCardPair, call_session, sendMessage, bind, modify,
    log, upd_c, wrote.
  destruct (session_FinalizeCardPair (hw (session (c w))) (Payload msg))
    as [[e|] h]; simpl; rewrite Hcl; simpl; auto.
Qed.

(** C4 (the code departs from it).  The responder does what the
    specification says: on success of the session's finalize it answers
    with an empty payload, sets [pairFinalized] and binds the session's
    [RemoteCard] to this connection; on failure it answers with the error text and changes
    neither.  The initiator whose request is answered with an empty payload
    returns nil, but leaves [pairFinalized] unset and [RemoteCard] as it
    was. *)
Theorem FinalizeCardPair_leaves_unbound d w t rest msg :
  closed (conn (c w)) = false ->
  pairFinalized (c w) = false ->
  finalizeCardPairDataChan (c w) = None ->
  incoming w = (t, Decoded (mkMessage ResponseFinalizeCardPair [])) :: rest ->
  t < now w + 10 * Second ->
  let responder := snd (processFinalizeCardPair msg w) in
  let initiator := snd (FinalizeCardPair d w) in
  match fst (session_FinalizeCardPair (hw (session (c w))) (Payload msg)) with
  | None =>
      written (conn (c responder))
      = written (conn (c w)) ++ [mkMessage ResponseFinalizeCardPair []] /\
      pairFinalized (c responder) = true /\
      RemoteCard (session (c responder)) = Some (self (c w))
  | Some e =>
      written (conn (c responder))
      = written (conn (c w))
        ++ [mkMessage ResponseFinalizeCardPair (list_byte_of_string (Error e))] /\
      pairFinalized (c responder) = false /\
      RemoteCard (session (c responder)) = RemoteCard (session (c w))
  end /\
  fst (FinalizeCardPair d w) = None /\
  pairFinalized (c initiator) = false /\
  RemoteCard (session (c initiator)) = RemoteCard (session (c w)).
Proof.
  intros Hcl Hpf He Hin Ht responder initiator. split.
  - pose proof (processFinalizeCardPair_responder msg w Hcl) as H.
    simpl in H. fold responder in H. rewrite Hpf in H. exact H.
  - exact (FinalizeCardPair_response d w t [] rest Hpf He Hcl Hin Ht).
Qed.

End RemoteProperties.

(** * Runs against the simulated peer *)

Section RemoteRuns.
Import Remote.

(** C1, refuted as stated: the peer replays its answer to the first
    challenge as the answer to the second.  The replayed signature does
    not validate over the second nonce, yet [verified] is set after the
    second exchange; the second [Identify] returns the Timeout error. *)
Lemma Identify_replay_stays_verified :
  let w1 := snd (Identify nonce1 replayed) in
  let w2 := snd (Identify nonce2 w1) in
  validates (E := sim) (Payload (honest_response nonce1)) nonce1 = true /\
  validates (E := sim) (Payload (honest_response nonce1)) nonce2 = false /\
  counterpartyNonce (c w2) = nonce2 /\
  verified (c w2) = true /\
  fst (Identify nonce2 w1) = Some ErrTimeout.
Proof. vm_compute. repeat split; reflexivity. Qed.

Lemma Identify_sets_verified_witness :
  remoteIdentityChan (c replayed) = None /\
  closed (conn (c replayed)) = false /\
  incoming replayed
  = (Second, Decoded (honest_response nonce1))
    :: [(11 * Second, Decoded (honest_response nonce1))] /\
  Second < now replayed + 10 * Second /\
  quiet (now replayed + 10 * Second)
    [(11 * Second, Decoded (honest_response nonce1))] = true /\
  (verified (c (snd (Identify nonce1 replayed))) = true <->
   verified (c replayed) = true \/
   validates (E := sim) (Payload (honest_response nonce1)) nonce1 = true).
Proof.
  assert (H1 : remoteIdentityChan (c replayed) = None) by reflexivity.
  assert (H2 : closed (conn (c replayed)) = false) by reflexivity.
  assert (H3 : incoming replayed
               = (Second, Decoded (honest_response nonce1))
                 :: [(11 * Second, Decoded (honest_response nonce1))])
    by reflexivity.
  assert (H4 : Second < now replayed + 10 * Second) by (vm_compute; reflexivity).
  assert (H5 : quiet (now replayed + 10 * Second)
                 [(11 * Second, Decoded (honest_response nonce1))] = true)
    by reflexivity.
  repeat (split; [assumption|]).
  exact (proj1 (proj2 (proj2
    (proj2 (Identify_sets_verified (E := sim) nonce1 replayed Second
              (Payload (honest_response nonce1))
              [(11 * Second, Decoded (honest_response nonce1))])
       H1 H2 H3 H4 H5)))).
Defined.

(** The world after the first exchange of [replayed]. *)
Lemma Identify_never_succeeds_witness :
  reach replayed (exec (DoIdentify nonce1) replayed) /\
  fst (Identify nonce2 (exec (DoIdentify nonce1) replayed)) = Some ErrTimeout /\
  now (snd (Identify nonce2 (exec (DoIdentify nonce1) replayed)))
  = now (exec (DoIdentify nonce1) replayed) + 10 * Second.
Proof.
  assert (H : reach replayed (exec (DoIdentify nonce1) replayed)).
  { eapply reach_step; [apply reach_refl | apply step_call]. }
  split; [exact H|].
  exact (Identify_never_succeeds (E := sim) 1%nat (mkSession (E := sim) 7 None) 0
           _ _ nonce2 H).
Defined.

Lemma flags_only_rise_witness :
  let w := exec (DoSleep (2 * Second)) finalize_requested in
  let w' := exec (DoCardPair []) w in
  reach finalize_requested w /\
  reach w w' /\
  pairFinalized (c w) = true /\
  pairFinalized (c w') = true /\
  RemoteCard (session (c w')) = Some (self (c w)).
Proof.
  intros w w'.
  assert (H1 : reach finalize_requested w).
  { eapply reach_step; [apply reach_refl | apply step_call]. }
  assert (H2 : reach w w').
  { eapply reach_step; [apply reach_refl | apply step_call]. }
  assert (H3 : pairFinalized (c w) = true) by reflexivity.
  destruct (flags_only_rise (E := sim) 1%nat (mkSession (E := sim) 7 None) 0
              _ w w' H1 H2) as (_ & _ & H).
  destruct (H H3) as (H4 & _ & _ & H5).
  repeat split; assumption.
Defined.

Lemma GetCertificate_idempotent_witness :
  let w1 := snd (GetCertificate certificate_answered) in
  remoteCertificate (c certificate_answered) = None /\
  remoteCertificateChan (c certificate_answered) = None /\
  closed (conn (c certificate_answered)) = false /\
  incoming certificate_answered
  = [(Second, Decoded (mkMessage ResponseCertificate [x2a]))] /\
  Second < now certificate_answered + 10 * Second /\
  cert_ParseRawCardCertificate (Collaborators := sim) [x2a] = inr [x2a] /\
  fst (GetCertificate certificate_answered) = (Some [x2a], None) /\
  GetCertificate w1 = ((Some [x2a], None), w1).
Proof.
  intros w1.
  assert (H1 : remoteCertificate (c certificate_answered) = None) by reflexivity.
  assert (H2 : remoteCertificateChan (c certificate_answered) = None)
    by reflexivity.
  assert (H3 : closed (conn (c certificate_answered)) = false) by reflexivity.
  assert (H4 : incoming certificate_answered
               = [(Second, Decoded (mkMessage ResponseCertificate [x2a]))])
    by reflexivity.
  assert (H5 : Second < now certificate_answered + 10 * Second)
    by (vm_compute; reflexivity).
  assert (H6 : cert_ParseRawCardCertificate (Collaborators := sim) [x2a]
               = inr [x2a]) by reflexivity.
  destruct (GetCertificate_idempotent (E := sim) certificate_answered)
    as (_ & H & _).
  destruct (H Second [x2a] [] [x2a] H1 H2 H3 H4 H5 H6) as (H7 & _ & _ & H8).
  repeat split; assumption.
Defined.

Lemma FinalizeCardPair_initiator_witness :
  pairFinalized (c finalize_answered) = false /\
  finalizeCardPairDataChan (c finalize_answered) = None /\
  closed (conn (c finalize_answered)) = false /\
  incoming finalize_answered
  = [(Second, Decoded (mkMessage ResponseFinalizeCardPair []))] /\
  Second < now finalize_answered + 10 * Second /\
  fst (FinalizeCardPair [x01] finalize_answered) = None.
Proof.
  assert (H1 : pairFinalized (c finalize_answered) = false) by reflexivity.
  assert (H2 : finalizeCardPairDataChan (c finalize_answered) = None)
    by reflexivity.
  assert (H3 : closed (conn (c finalize_answered)) = false) by reflexivity.
  assert (H4 : incoming finalize_answered
               = [(Second, Decoded (mkMessage ResponseFinalizeCardPair []))])
    by reflexivity.
  assert (H5 : Second < now finalize_answered + 10 * Second)
    by (vm_compute; reflexivity).
  destruct (FinalizeCardPair_initiator (E := sim) [x01] finalize_answered)
    as (_ & H & _).
  destruct (H H1 H2) as (H6 & _).
  repeat (split; [assumption|]).
  exact (H6 Second [] [] H3 H4 H5).
Defined.

(** C5, refuted as stated: the response to a first [FinalizeCardPair]
    comes after that call has returned the Timeout error, and is decoded
    while the caller does something else.  The next [FinalizeCardPair]
    finds it in the channel: with [pairFinalized] unset and no frame at all
    in its window it returns at once, nil for the empty payload and the old
    error for the other, instead of the Timeout error. *)
Lemma FinalizeCardPair_takes_late_response :
  let refused := list_byte_of_string "refused" in
  let late p :=
    exec (DoSleep (2 * Second))
      (exec (DoFinalizeCardPair [x01]) (finalize_answered_late p)) in
  (result (DoFinalizeCardPair [x01]) (finalize_answered_late [])
   = Some ErrTimeout /\
   pairFinalized (c (late [])) = false /\
   incoming (late []) = [] /\
   fst (FinalizeCardPair [x02] (late [])) = None /\
   now (snd (FinalizeCardPair [x02] (late []))) = now (late [])) /\
  (result (DoFinalizeCardPair [x01]) (finalize_answered_late refused)
   = Some ErrTimeout /\
   pairFinalized (c (late refused)) = false /\
   incoming (late refused) = [] /\
   fst (FinalizeCardPair [x02] (late refused))
   = Some (errors_New "refused") /\
   now (snd (FinalizeCardPair [x02] (late refused))) = now (late refused)).
Proof. vm_compute. repeat split; reflexivity. Qed.

Lemma ConnectToCard_two_waits_witness :
  let w' := snd (ConnectToCard "card-B" identified) in
  identifiedWithServer (c identified) = true /\
  connectedToCardChan (c identified) = None /\
  window_all (fun m => negb (named MessageConnectedToCard m))
    (now identified + 10 * Second) (incoming identified) = true /\
  fst (ConnectToCard "card-B" identified) = Some ErrTimeout /\
  closed (conn (c w')) = true /\
  now w' = now identified + 10 * Second.
Proof.
  intros w'.
  assert (H1 : identifiedWithServer (c identified) = true) by reflexivity.
  assert (H2 : connectedToCardChan (c identified) = None) by reflexivity.
  assert (H3 : window_all (fun m => negb (named MessageConnectedToCard m))
                 (now identified + 10 * Second) (incoming identified) = true)
    by reflexivity.
  destruct (ConnectToCard_two_waits (E := sim) "card-B" identified)
    as (_ & H & _).
  destruct (H H1 H2) as (_ & H4).
  destruct (H4 H3) as (H5 & H6 & H7 & _).
  repeat split; assumption.
Defined.

Lemma timeout_leaves_connection_witness :
  waits (DoCardPair [x01]) (c (fresh [])) = true /\
  window_all (fun m => negb (reply_to (DoCardPair [x01]) (c (fresh [])) m))
    (now (fresh []) + 10 * Second) (incoming (fresh [])) = true /\
  quiet (now (fresh []) + 10 * Second) (incoming (fresh [])) = true /\
  result (DoCardPair [x01]) (fresh []) = Some ErrTimeout /\
  now (exec (DoCardPair [x01]) (fresh [])) = now (fresh []) + 10 * Second /\
  c (exec (DoCardPair [x01]) (fresh []))
  = timed_out (DoCardPair [x01]) (c (fresh [])).
Proof.
  assert (H1 : waits (DoCardPair [x01]) (c (fresh [])) = true) by reflexivity.
  assert (H2 : window_all
                 (fun m => negb (reply_to (DoCardPair [x01]) (c (fresh [])) m))
                 (now (fresh []) + 10 * Second) (incoming (fresh [])) = true)
    by reflexivity.
  assert (H3 : quiet (now (fresh []) + 10 * Second) (incoming (fresh [])) = true)
    by reflexivity.
  destruct (timeout_leaves_connection (E := sim) (DoCardPair [x01]) (fresh [])
              H1 H2) as (H4 & H5 & H).
  destruct (H H3) as (H6 & _).
  repeat split; assumption.
Defined.

(** C6, refuted as stated: three calls that get no reply and return the
    Timeout error.  [ConnectToCard] has closed the stream; [Identify] has
    replaced the stored nonce; and while [CardPair] waited, the dispatch
    loop finalized a pairing the peer asked for. *)
Lemma timeout_changes_connection :
  (result (DoConnectToCard "card-B") identified = Some ErrTimeout /\
   closed (conn (c identified)) = false /\
   closed (conn (c (exec (DoConnectToCard "card-B") identified))) = true) /\
  (result (DoIdentify nonce1) (fresh []) = Some ErrTimeout /\
   counterpartyNonce (c (fresh [])) = repeat x00 32 /\
   counterpartyNonce (c (exec (DoIdentify nonce1) (fresh []))) = nonce1) /\
  (result (DoCardPair []) finalize_requested = Some ErrTimeout /\
   window_all
     (fun m => negb (reply_to (DoCardPair []) (c finalize_requested) m))
     (now finalize_requested + 10 * Second) (incoming finalize_requested)
   = true /\
   pairFinalized (c finalize_requested) = false /\
   pairFinalized (c (exec (DoCardPair []) finalize_requested)) = true).
Proof. vm_compute. repeat split; reflexivity. Qed.

Lemma FinalizeCardPair_leaves_unbound_witness :
  let initiator := snd (FinalizeCardPair [x01] finalize_answered) in
  closed (conn (c finalize_answered)) = false /\
  pairFinalized (c finalize_answered) = false /\
  finalizeCardPairDataChan (c finalize_answered) = None /\
  incoming finalize_answered
  = [(Second, Decoded (mkMessage ResponseFinalizeCardPair []))] /\
  Second < now finalize_answered + 10 * Second /\
  fst (FinalizeCardPair [x01] finalize_answered) = None /\
  pairFinalized (c initiator) = false /\
  RemoteCard (session (c initiator)) = None.
Proof.
  intros initiator.
  assert (H1 : closed (conn (c finalize_answered)) = false) by reflexivity.
  assert (H2 : pairFinalized (c finalize_answered) = false) by reflexivity.
  assert (H3 : finalizeCardPairDataChan (c finalize_answered) = None)
    by reflexivity.
  assert (H4 : incoming finalize_answered
               = [(Second, Decoded (mkMessage ResponseFinalizeCardPair []))])
    by reflexivity.
  assert (H5 : Second < now finalize_answered + 10 * Second)
    by (vm_compute; reflexivity).
  destruct (FinalizeCardPair_leaves_unbound (E := sim) [x01] finalize_answered
              Second [] (mkMessage RequestFinalizeCardPair [x01])
              H1 H2 H3 H4 H5) as (_ & H6 & H7 & H8).
  repeat split; assumption.
Defined.

Lemma sendIdentify_payload_witness :
  let msg := mkMessage RequestIdentify nonce1 in
  session_IdentifyCard (Collaborators := sim) (hw (session (c (fresh []))))
    (Payload msg)
  = ((7, sim_sign 7 nonce1, None), 7) /\
  closed (conn (c (fresh []))) = false /\
  written (conn (c (snd (sendIdentify msg (fresh [])))))
  = [mkMessage ResponseIdentify
       (gob_Encode (Collaborators := sim) (sim_sign 7 nonce1))].
Proof.
  intros msg.
  assert (H1 : session_IdentifyCard (Collaborators := sim)
                 (hw (session (c (fresh [])))) (Payload msg)
               = ((7, sim_sign 7 nonce1, None), 7)) by reflexivity.
  assert (H2 : closed (conn (c (fresh []))) = false) by reflexivity.
  repeat (split; [assumption|]).
  exact (sendIdentify_payload (E := sim) msg (fresh []) 7 (sim_sign 7 nonce1) 7
           H1 H2).
Defined.

(** Two connections of the simulation: the answer that [sendIdentify]
    writes for the card with key 7 is not an identify-response the
    requester can parse, and the requester that receives it stays
    unverified although the card signed its nonce. *)
Lemma sendIdentify_answer_not_accepted :
  let answer := written (conn (c (snd (Sleep (2 * Second) challenged)))) in
  let requester :=
    fresh (map (fun m => (Second, Decoded m)) answer) in
  answer = [mkMessage ResponseIdentify
              (gob_Encode (Collaborators := sim) (sim_sign 7 nonce1))] /\
  validates (E := sim) (sim_response 7 (sim_sign 7 nonce1)) nonce1 = true /\
  validates (E := sim)
    (gob_Encode (Collaborators := sim) (sim_sign 7 nonce1)) nonce1 = false /\
  verified (c (snd (Identify nonce1 requester))) = false.
Proof. vm_compute. repeat split; reflexivity. Qed.

End RemoteRuns.

(** * Properties of the validator *)

Section ValidatorProperties.
Import Validator.
Context {V : Services}.

Lemma aggregateTransactions_no_error txl addresses :
  snd (aggregateTransactions txl addresses) = None.
Proof. reflexivity. Qed.

(** [Validate] answers by whether the balance is nonzero. *)
Lemma Validate_outcome fuel url phonon addresses balance :
  pubKeyToAddresses (PubKey phonon) = inr addresses ->
  getBalance fuel url addresses = Some (balance, None) ->
  Validate fuel url phonon = Some (negb (balance =? 0), None).
Proof.
  intros Ha Hb. unfold Validate. rewrite Ha, Hb.
  destruct (balance =? 0); reflexivity.
Qed.

(** The value stated in the phonon is never read. *)
Lemma Validate_ignores_ClaimedValue fuel url key v1 v2 :
  Validate fuel url (mkPhonon key v1) = Validate fuel url (mkPhonon key v2).
Proof. reflexivity. Qed.

End ValidatorProperties.

Section ValidatorRuns.
Import Validator.
#[local] Existing Instance sim_chain.

(** C3 (the code departs from it).  On the simulated chain the addresses
    of the key hold 1 in all; the phonon states 100.  The balance does not
    cover the stated value, and [Validate] answers true. *)
Theorem Validate_accepts_underfunded :
  let phonon := mkPhonon (V := sim_chain) tt 100 in
  exists addresses,
    pubKeyToAddresses (PubKey phonon) = inr addresses /\
    getBalance 0 "http://bcoin" addresses = Some (1, None) /\
    backed 1 phonon = false /\
    Validate 0 "http://bcoin" phonon = Some (true, None).
Proof.
  intros phonon. eexists. split; [reflexivity|].
  vm_compute. repeat split; reflexivity.
Qed.

End ValidatorRuns.

(** * More about the remote client *)

Section RemoteDispatch.
Import Remote.
Context {E : Collaborators}.

Ltac unfold_handlers :=
  unfold process, receiveCertificate, sendCertificate, sendIdentify,
    processIdentify, processCardPair1, processFinalizeCardPair,
    processReceivePhonons, sendMessage, wrote, call_session, andThen, send,
    run, bind, ret, modify, read, log, chan_put, upd_c in *.

Ltac split_tests :=
  repeat match goal with
  | H : Some _ = Some _ |- _ => inversion H; subst; clear H
  | H : (_, _) = (_, _) |- _ => inversion H; subst; clear H
  | H : None = Some _ |- _ => discriminate H
  | H : Some _ = None |- _ => discriminate H
  | H : context [match ?x with _ => _ end] |- _ => destruct x eqn:?; simpl in H
  | H : context [if ?x then _ else _] |- _ => destruct x eqn:?; simpl in H
  | |- context [match ?x with _ => _ end] => destruct x eqn:?; simpl
  | |- context [if ?x then _ else _] => destruct x eqn:?; simpl
  end.

(** X9.  A handler of the dispatch loop blocks exactly when its message is
    routed to a channel that still holds a value: a second notification or
    response of a kind whose first one nobody has received (for a
    certificate-response: one that parses). *)
Theorem process_blocks_iff_stuck m w :
  process m w = None <-> stuck m (c w) = true.
Proof.
  destruct w as [r t fr lg]. destruct m as [n p]. destruct r. unfold stuck.
  destruct n; unfold_handlers; simpl;
    try destruct (cert_ParseRawCardCertificate p); simpl;
    repeat match goal with
    | |- context [match ?x with _ => _ end] => is_var x; destruct x; simpl
    end;
    split; intros H; try discriminate H; try reflexivity.
Qed.

Lemma is_empty_true {T} (ch : option T) : is_empty ch = true -> ch = None.
Proof. destruct ch; simpl; congruence. Qed.

Lemma wrote_keeps {T} (get : RemoteConnection -> T) n p r :
  (forall v r0, get (set_conn v r0) = get r0) -> get (wrote n p r) = get r.
Proof. intros H. unfold wrote. destruct (closed (conn r)); auto. Qed.

Ltac shape :=
  split; [reflexivity|]; split; [reflexivity|]; split; [reflexivity|];
  split; [ | intros w2 Hs ].

(** Every call that waits is: write the request, wait on one channel, and
    on a timeout return the Timeout error. *)
Lemma first_wait k w :
  waits k (c w) = true ->
  exists (T : Type) (ch : ChanRef T) (w1 : World),
    c w1 = requested k (c w) /\
    now w1 = now w /\
    incoming w1 = incoming w /\
    get_chan ch (c w1) = None /\
    forall w2,
      select_recv ch (10 * Second) w1 = (None, w2) ->
      result k w = Some ErrTimeout /\
      now (exec k w) = now w2 /\
      incoming (exec k w) = incoming w2 /\
      c (exec k w) = gave_up k (c w) (c w2).
Proof.
  intros Hwt. destruct k; simpl in Hwt; try discriminate Hwt.
  - apply is_empty_true in Hwt.
    exists bytes, remoteIdentityChan_,
      (mkWorld (wrote RequestIdentify nonce (set_counterpartyNonce nonce (c w)))
         (now w) (incoming w)
         (logged w ++ [(LDebug, [string_of_list_byte nonce])])).
    shape.
    + cbn [c get_chan remoteIdentityChan_].
      rewrite wrote_keeps by reflexivity. exact Hwt.
    + simpl. unfold Identify, sendMessage, bind, read, ret, modify, log, upd_c.
      cbn [fst snd c now incoming logged]. rewrite Hs. auto.
  - apply is_empty_true in Hwt.
    exists bytes, cardPair1DataChan_,
      (mkWorld (wrote RequestCardPair1 initPairingData (c w))
         (now w) (incoming w)
         (logged w ++ [(LDebug, [string_of_list_byte initPairingData])])).
    shape.
    + cbn [c get_chan cardPair1DataChan_].
      rewrite wrote_keeps by reflexivity. exact Hwt.
    + simpl. unfold CardPair, sendMessage, bind, read, ret, modify, log, upd_c.
      cbn [fst snd c now incoming logged]. rewrite Hs. auto.
  - apply andb_prop in Hwt. destruct Hwt as [Hpf He].
    apply is_empty_true in He. apply negb_true_iff in Hpf.
    exists bytes, finalizeCardPairDataChan_,
      (mkWorld (wrote RequestFinalizeCardPair cardPair2Data (c w))
         (now w) (incoming w)
         (logged w ++ [(LDebug, [string_of_list_byte cardPair2Data])])).
    shape.
    + cbn [c get_chan finalizeCardPairDataChan_].
      rewrite wrote_keeps by reflexivity. exact He.
    + simpl.
      unfold FinalizeCardPair, sendMessage, bind, read, ret, modify, log, upd_c.
      cbn [fst snd c now incoming logged].
      rewrite (wrote_keeps pairFinalized) by reflexivity. rewrite Hpf.
      cbn [negb]. rewrite Hs. auto.
  - apply andb_prop in Hwt. destruct Hwt as [Hc He].
    apply is_empty_true in He, Hc.
    exists CardCertificate, remoteCertificateChan_,
      (mkWorld (wrote RequestCertificate [] (c w))
         (now w) (incoming w)
         (logged w ++ [(LDebug, [string_of_list_byte []])])).
    shape.
    + cbn [c get_chan remoteCertificateChan_].
      rewrite wrote_keeps by reflexivity. exact He.
    + simpl.
      unfold GetCertificate, sendMessage, bind, read, ret, modify, log, upd_c.
      cbn [fst snd c now incoming logged]. rewrite Hc. rewrite Hs. auto.
  - destruct (identifiedWithServer (c w)) eqn:Hi.
    + apply is_empty_true in Hwt.
      exists bool, connectedToCardChan_,
        (mkWorld (wrote RequestConnectCard2Card (list_byte_of_string cardID) (c w))
           (now w) (incoming w)
           ((logged w ++ [(LInfo, ["sending requestConnectCard2Card message"%string])])
            ++ [(LDebug, [string_of_list_byte (list_byte_of_string cardID)])])).
      split; [simpl; try rewrite Hi; reflexivity|].
      split; [reflexivity|]. split; [reflexivity|]. split.
      * cbn [c get_chan connectedToCardChan_].
        rewrite wrote_keeps by reflexivity. exact Hwt.
      * intros w2 Hs. simpl. rewrite (ConnectToCard_identified cardID w Hi).
        unfold ConnectToCard_request, sendMessage, bind, read, ret, modify,
          log, upd_c.
        cbn [fst snd c now incoming logged]. rewrite Hs. try rewrite Hi. auto.
    + apply is_empty_true in Hwt.
      exists bool, identifiedWithServerChan_, w.
      split; [simpl; try rewrite Hi; reflexivity|].
      split; [reflexivity|]. split; [reflexivity|]. split; [exact Hwt|].
      intros w2 Hs. simpl. unfold ConnectToCard, bind, read. cbn [fst snd].
      rewrite Hi. cbn [negb]. rewrite Hs. try rewrite Hi. auto.
  - apply is_empty_true in Hwt.
    exists bool, phononAckChan_,
      (mkWorld (wrote RequestReceivePhonon PhononTransfer (c w))
         (now w) (incoming w)
         (logged w ++ [(LDebug, [string_of_list_byte PhononTransfer])])).
    shape.
    + cbn [c get_chan phononAckChan_].
      rewrite wrote_keeps by reflexivity. exact Hwt.
    + simpl.
      unfold ReceivePhonons, sendMessage, bind, read, ret, modify, log, upd_c.
      cbn [fst snd c now incoming logged]. rewrite Hs. auto.
Qed.

Lemma stuck_blocks m w : stuck m (c w) = true -> process m w = None.
Proof.
  destruct w as [r t fr lg]. destruct m as [n p]. destruct r. unfold stuck.
  destruct n; unfold_handlers; simpl;
    try destruct (cert_ParseRawCardCertificate p); simpl;
    repeat match goal with
    | |- context [match ?x with _ => _ end] => is_var x; destruct x; simpl
    end;
    intros H; try discriminate H; reflexivity.
Qed.

Lemma requested_frame k r :
  closed (conn (requested k r)) = closed (conn r) /\
  (forall m, stuck m (requested k r) = stuck m r) /\
  (closed (conn r) = true -> written (conn (requested k r)) = written (conn r)).
Proof.
  destruct r. split; [|split].
  - destruct k; simpl; unfold wrote; simpl;
      repeat match goal with
      | |- context [if ?b then _ else _] => destruct b eqn:?; simpl
      end; congruence.
  - intros m. unfold stuck.
    destruct k; simpl; unfold wrote; simpl;
      repeat match goal with
      | |- context [if ?b then _ else _] => destruct b; simpl
      end; reflexivity.
  - simpl. intros Hcl.
    destruct k; simpl; unfold wrote; simpl;
      repeat match goal with
      | |- context [if ?b then _ else _] => destruct b; simpl
      end; first [reflexivity | discriminate Hcl].
Qed.

Lemma await_blocked {T} (ch : ChanRef T) d t m rest w :
  get_chan ch (c w) = None ->
  closed (conn (c w)) = false ->
  stuck m (c w) = true ->
  await ch d ((t, Decoded m) :: rest) w
  = (None, set_now d (set_incoming ((t, Decoded m) :: rest) w)).
Proof.
  intros He Hcl Hst. simpl. rewrite He. simpl.
  destruct (d <=? t); [reflexivity|]. rewrite Hcl.
  rewrite stuck_blocks; [reflexivity|]. exact Hst.
Qed.

(** X10.  Head-of-line blocking.  While the frame at the head of the
    stream is one whose handler blocks, a call that waits on an empty
    channel returns the Timeout error at its deadline, and the blocked
    frame and everything behind it are still unread. *)
Theorem blocked_loop_times_out k w t m rest :
  waits k (c w) = true ->
  closed (conn (c w)) = false ->
  incoming w = (t, Decoded m) :: rest ->
  stuck m (c w) = true ->
  result k w = Some ErrTimeout /\
  now (exec k w) = now w + 10 * Second /\
  incoming (exec k w) = incoming w.
Proof.
  intros Hwt Hcl Hin Hst.
  destruct (first_wait k w Hwt) as (T & ch & w1 & Hc & Hn & Hi & He & Hk).
  destruct (requested_frame k (c w)) as (Hrc & Hrs & _).
  destruct (Hk (set_now (now w1 + 10 * Second)
                  (set_incoming ((t, Decoded m) :: rest) w1)))
    as (H1 & H2 & H3 & _).
  { unfold select_recv. rewrite Hi, Hin. apply await_blocked; auto.
    - rewrite Hc, Hrc. exact Hcl.
    - rewrite Hc, Hrs. exact Hst. }
  rewrite H1, H2, H3. simpl. rewrite Hn, Hin. auto.
Qed.

Lemma await_malformed {T} (ch : ChanRef T) d t rest w :
  get_chan ch (c w) = None ->
  t < d ->
  closed (conn (c w)) = false ->
  await ch d ((t, Malformed) :: rest) w
  = (None, set_now d (set_incoming [] w)).
Proof.
  intros He Ht Hcl. simpl. rewrite He. simpl.
  destruct (d <=? t) eqn:Hle; [apply Z.leb_le in Hle; lia|].
  rewrite Hcl. reflexivity.
Qed.

(** X11.  A frame the decoder rejects ends the dispatch loop: the call
    that was waiting returns the Timeout error, nothing behind that frame
    is ever read, and every later call that waits times out as well. *)
Theorem malformed_frame_ends_loop k w t rest :
  waits k (c w) = true ->
  closed (conn (c w)) = false ->
  incoming w = (t, Malformed) :: rest ->
  t < now w + 10 * Second ->
  result k w = Some ErrTimeout /\
  incoming (exec k w) = [] /\
  forall k',
    waits k' (c (exec k w)) = true ->
    result k' (exec k w) = Some ErrTimeout.
Proof.
  intros Hwt Hcl Hin Ht.
  destruct (first_wait k w Hwt) as (T & ch & w1 & Hc & Hn & Hi & He & Hk).
  destruct (requested_frame k (c w)) as (Hrc & _ & _).
  destruct (Hk (set_now (now w1 + 10 * Second) (set_incoming [] w1)))
    as (H1 & H2 & H3 & _).
  { unfold select_recv. rewrite Hi, Hin. apply await_malformed; auto.
    - lia.
    - rewrite Hc, Hrc. exact Hcl. }
  split; [exact H1|]. split; [rewrite H3; reflexivity|].
  intros k' Hwt'. apply timeout_result; [exact Hwt'|].
  rewrite H3. reflexivity.
Qed.



Lemma skipn_length_app {A} (l l' : list A) :
  skipn (List.length l) (l ++ l') = l'.
Proof. induction l as [|x l IH]; simpl; auto. Qed.

Lemma process_writes m w w' :
  process m w = Some w' ->
  written (conn (c w')) = written (conn (c w)) \/
  exists n p,
    answer_name (Name m) = Some n /\
    written (conn (c w')) = written (conn (c w)) ++ [mkMessage n p].
Proof.
  intros Hp. destruct w as [r t fr lg]. destruct m as [n p].
  destruct n; unfold_handlers; simpl in *; split_tests; simpl;
    try (left; reflexivity);
    right; do 2 eexists; (split; [reflexivity | reflexivity]).
Qed.

(** X13.  The dispatch loop writes at most one envelope for a message it
    handles: nothing for a response or a notification, and for a request
    at most the envelope that answers it. *)
Theorem process_answers_once m w w' :
  process m w = Some w' ->
  written (conn (c w')) = written (conn (c w)) ++ answers m w /\
  (answers m w = [] \/
   exists n p,
     answer_name (Name m) = Some n /\ answers m w = [mkMessage n p]).
Proof.
  intros Hp. unfold answers. rewrite Hp.
  destruct (process_writes m w w' Hp) as [H | (n & p & Hn & H)]; rewrite H.
  - rewrite skipn_all, app_nil_r. auto.
  - rewrite skipn_length_app. split; [reflexivity|].
    right. exists n, p. auto.
Qed.


Lemma await_world_incoming {T} (ch : ChanRef T) d fr l w :
  await ch d fr (set_incoming l w) = await ch d fr w.
Proof.
  revert w l. induction fr as [|[t f] rest IH]; intros w l; simpl.
  - destruct (chan_take (get_chan ch (c w))) as [[v ch']|]; reflexivity.
  - destruct (chan_take (get_chan ch (c w))) as [[v ch']|]; reflexivity.
Qed.


Lemma wrote_open n p r :
  closed (conn r) = false -> closed (conn (wrote n p r)) = false.
Proof. intros H. unfold wrote. rewrite H. reflexivity. Qed.


Lemma await_ready {T} (ch : ChanRef T) d fr w v :
  get_chan ch (c w) = Some v ->
  await ch d fr w = (Some v, set_incoming fr (upd_c (set_chan ch None) w)).
Proof.
  intros Hv. destruct fr as [|[t f] rest]; simpl; rewrite Hv; reflexivity.
Qed.

(** X15.  A reply that came too late for its call is taken by the next
    call of the same kind: with a payload already in the channel,
    [CardPair] returns it at once as the answer to its own request. *)
Theorem CardPair_takes_stale_reply d w p :
  cardPair1DataChan (c w) = Some p ->
  fst (CardPair d w) = (p, None) /\
  now (snd (CardPair d w)) = now w /\
  incoming (snd (CardPair d w)) = incoming w /\
  cardPair1DataChan (c (snd (CardPair d w))) = None.
Proof.
  intros Hp.
  unfold CardPair, sendMessage, bind, read, ret, modify, log, upd_c,
    select_recv.
  cbn [fst snd c now incoming logged].
  rewrite (await_ready cardPair1DataChan_ _ _ _ p).
  - simpl. auto.
  - cbn [c get_chan cardPair1DataChan_].
    rewrite wrote_keeps by reflexivity. exact Hp.
Qed.

End RemoteDispatch.

Section RemoteRoundTrips.
Import Remote.
Context {E : Collaborators}.

Ltac unfold_handlers :=
  unfold process, receiveCertificate, sendCertificate, sendIdentify,
    processIdentify, processCardPair1, processFinalizeCardPair,
    processReceivePhonons, sendMessage, wrote, call_session, andThen, send,
    run, bind, ret, modify, read, log, chan_put, upd_c in *.

(** What the responder writes for each request. *)
Lemma answers_CardPair d w :
  closed (conn (c w)) = false ->
  answers (mkMessage RequestCardPair1 d) w
  = [mkMessage ResponseCardPair1
       (fst (fst (session_CardPair (hw (session (c w))) d)))].
Proof.
  intros Hcl. unfold answers. unfold_handlers. simpl.
  destruct (session_CardPair (hw (session (c w))) d) as [[p [e|]] h]; simpl;
    rewrite Hcl; simpl; apply skipn_length_app.
Qed.

Lemma answers_FinalizeCardPair d w :
  closed (conn (c w)) = false ->
  answers (mkMessage RequestFinalizeCardPair d) w
  = [mkMessage ResponseFinalizeCardPair
       (match fst (session_FinalizeCardPair (hw (session (c w))) d) with
        | None => []
        | Some e => list_byte_of_string (Error e)
        end)].
Proof.
  intros Hcl. unfold answers. unfold_handlers. simpl.
  destruct (session_FinalizeCardPair (hw (session (c w))) d) as [[e|] h];
    simpl; rewrite Hcl; simpl; apply skipn_length_app.
Qed.

Lemma answers_ReceivePhonons d w :
  closed (conn (c w)) = false ->
  answers (mkMessage RequestReceivePhonon d) w
  = match fst (session_ReceivePhonons (hw (session (c w))) d) with
    | None => [mkMessage MessagePhononAck []]
    | Some _ => []
    end.
Proof.
  intros Hcl. unfold answers. unfold_handlers. simpl.
  destruct (session_ReceivePhonons (hw (session (c w))) d) as [[e|] h];
    simpl.
  - apply skipn_all.
  - rewrite Hcl. simpl. apply skipn_length_app.
Qed.

Lemma answers_Certificate p w :
  closed (conn (c w)) = false ->
  answers (mkMessage RequestCertificate p) w
  = [mkMessage ResponseCertificate
       (cert_Serialize (fst (fst (session_GetCertificate (hw (session (c w)))))))].
Proof.
  intros Hcl. unfold answers. unfold_handlers. simpl.
  destruct (session_GetCertificate (hw (session (c w)))) as [[crt [e|]] h];
    simpl; rewrite Hcl; simpl; apply skipn_length_app.
Qed.

Lemma CardPair_response d w t p rest :
  cardPair1DataChan (c w) = None ->
  closed (conn (c w)) = false ->
  incoming w = (t, Decoded (mkMessage ResponseCardPair1 p)) :: rest ->
  t < now w + 10 * Second ->
  fst (CardPair d w) = (p, None).
Proof.
  intros He Hcl Hin Ht.
  unfold CardPair, sendMessage, bind, read, ret, modify, log, upd_c,
    select_recv.
  cbn [fst snd c now incoming logged].
  rewrite Hin. unfold wrote. rewrite Hcl.
  erewrite await_next; cycle 1.
  - simpl. exact He.
  - exact Ht.
  - reflexivity.
  - unfold_handlers. unfold set_now, set_incoming. simpl. rewrite He.
    reflexivity.
  - reflexivity.
  - reflexivity.
Qed.

Lemma ReceivePhonons_ack d w t p rest :
  phononAckChan (c w) = None ->
  closed (conn (c w)) = false ->
  incoming w = (t, Decoded (mkMessage MessagePhononAck p)) :: rest ->
  t < now w + 10 * Second ->
  fst (ReceivePhonons d w) = None.
Proof.
  intros He Hcl Hin Ht.
  unfold ReceivePhonons, sendMessage, bind, read, ret, modify, log, upd_c,
    select_recv.
  cbn [fst snd c now incoming logged].
  rewrite Hin. unfold wrote. rewrite Hcl.
  erewrite await_next; cycle 1.
  - simpl. exact He.
  - exact Ht.
  - reflexivity.
  - unfold_handlers. unfold set_now, set_incoming. simpl. rewrite He.
    reflexivity.
  - reflexivity.
  - reflexivity.
Qed.

(** X16.  Card pairing, phase 1, end to end.  When the peer's dispatch loop
    handles the request of [CardPair d] and its answer is delivered in
    time, [CardPair] returns the payload the peer's session produced for
    [d], untouched, and nil: also when that session reported an error,
    which the peer only logs. *)
Theorem CardPair_round_trip d wA wB t :
  closed (conn (c wB)) = false ->
  cardPair1DataChan (c wA) = None ->
  closed (conn (c wA)) = false ->
  incoming wA = delivered t (answers (mkMessage RequestCardPair1 d) wB) ->
  t < now wA + 10 * Second ->
  fst (CardPair d wA)
  = (fst (fst (session_CardPair (hw (session (c wB))) d)), None).
Proof.
  intros HclB He Hcl Hin Ht.
  rewrite (answers_CardPair d wB HclB) in Hin. simpl in Hin.
  exact (CardPair_response d wA t _ [] He Hcl Hin Ht).
Qed.

(** X17.  Finalizing, end to end.  The initiator returns nil when the
    peer's session finalized, and otherwise an error whose text is the
    text of the peer's error; a peer error with an empty text reaches the
    initiator as an empty payload and therefore as success. *)
Theorem FinalizeCardPair_round_trip d wA wB t :
  closed (conn (c wB)) = false ->
  pairFinalized (c wA) = false ->
  finalizeCardPairDataChan (c wA) = None ->
  closed (conn (c wA)) = false ->
  incoming wA = delivered t (answers (mkMessage RequestFinalizeCardPair d) wB) ->
  t < now wA + 10 * Second ->
  fst (FinalizeCardPair d wA)
  = match fst (session_FinalizeCardPair (hw (session (c wB))) d) with
    | None => None
    | Some e =>
        if String.eqb (Error e) "" then None
        else Some (errors_New (Error e))
    end.
Proof.
  intros HclB Hpf He Hcl Hin Ht.
  rewrite (answers_FinalizeCardPair d wB HclB) in Hin. simpl in Hin.
  destruct (FinalizeCardPair_response d wA t _ [] Hpf He Hcl Hin Ht)
    as (H & _).
  rewrite H.
  destruct (fst (session_FinalizeCardPair (hw (session (c wB))) d)) as [e|];
    [|reflexivity].
  assert (Hrt : string_of_list_byte (list_byte_of_string (Error e)) = Error e)
    by apply string_of_list_byte_of_string.
  destruct (list_byte_of_string (Error e)) as [|b l] eqn:Hl.
  - simpl in Hrt. rewrite <- Hrt. reflexivity.
  - rewrite Hrt. destruct (Error e) as [|a s].
    + discriminate Hl.
    + reflexivity.
Qed.

(** X18.  Phonon transfer, end to end.  The sender returns nil when the
    peer's session accepted the phonons; when it refused them the peer
    writes nothing and the sender returns the Timeout error. *)
Theorem ReceivePhonons_round_trip d wA wB t :
  closed (conn (c wB)) = false ->
  phononAckChan (c wA) = None ->
  closed (conn (c wA)) = false ->
  incoming wA = delivered t (answers (mkMessage RequestReceivePhonon d) wB) ->
  t < now wA + 10 * Second ->
  fst (ReceivePhonons d wA)
  = match fst (session_ReceivePhonons (hw (session (c wB))) d) with
    | None => None
    | Some _ => Some ErrTimeout
    end.
Proof.
  intros HclB He Hcl Hin Ht.
  rewrite (answers_ReceivePhonons d wB HclB) in Hin.
  destruct (fst (session_ReceivePhonons (hw (session (c wB))) d)) as [e|];
    simpl in Hin.
  - destruct (timeout_result (DoReceivePhonons d) wA) as [H _].
    + simpl. rewrite He. reflexivity.
    + rewrite Hin. reflexivity.
    + exact H.
  - exact (ReceivePhonons_ack d wA t [] [] He Hcl Hin Ht).
Qed.

Lemma GetCertificate_unparsed w t p rest e :
  remoteCertificate (c w) = None ->
  remoteCertificateChan (c w) = None ->
  closed (conn (c w)) = false ->
  incoming w = (t, Decoded (mkMessage ResponseCertificate p)) :: rest ->
  t < now w + 10 * Second ->
  quiet (now w + 10 * Second) rest = true ->
  cert_ParseRawCardCertificate p = inl e ->
  fst (GetCertificate w) = (None, Some ErrTimeout) /\
  remoteCertificate (c (snd (GetCertificate w))) = None.
Proof.
  intros Hc He Hcl Hin Ht Hq Hp.
  unfold GetCertificate, sendMessage, bind, read, ret, modify, log, upd_c,
    select_recv.
  cbn [fst snd c now incoming logged].
  rewrite Hc, Hin. unfold wrote. rewrite Hcl.
  erewrite await_one_then_quiet; cycle 1.
  - simpl. exact He.
  - exact Ht.
  - reflexivity.
  - unfold_handlers. unfold set_now, set_incoming. simpl. rewrite Hp.
    reflexivity.
  - simpl. exact He.
  - exact Hq.
  - simpl. auto.
Qed.

(** X19.  Certificate exchange, end to end.  The peer answers with the
    serialization of whatever certificate its session returned (also when
    the session reported an error); the requester returns and caches what
    that serialization parses to, and when it does not parse the requester
    returns the Timeout error and caches nothing. *)
Theorem GetCertificate_round_trip wA wB t :
  closed (conn (c wB)) = false ->
  remoteCertificate (c wA) = None ->
  remoteCertificateChan (c wA) = None ->
  closed (conn (c wA)) = false ->
  incoming wA = delivered t (answers (mkMessage RequestCertificate []) wB) ->
  t < now wA + 10 * Second ->
  match cert_ParseRawCardCertificate
          (cert_Serialize
             (fst (fst (session_GetCertificate (hw (session (c wB)))))))
  with
  | inr crt =>
      fst (GetCertificate wA) = (Some crt, None) /\
      remoteCertificate (c (snd (GetCertificate wA))) = Some crt
  | inl _ =>
      fst (GetCertificate wA) = (None, Some ErrTimeout) /\
      remoteCertificate (c (snd (GetCertificate wA))) = None
  end.
Proof.
  intros HclB Hc He Hcl Hin Ht.
  rewrite (answers_Certificate [] wB HclB) in Hin. simpl in Hin.
  destruct (cert_ParseRawCardCertificate _) as [e|crt] eqn:Hp.
  - exact (GetCertificate_unparsed wA t _ [] e Hc He Hcl Hin Ht eq_refl Hp).
  - destruct (GetCertificate_fetch wA t _ [] crt Hc He Hcl Hin Ht Hp)
      as (H1 & H2 & _).
    auto.
Qed.

(** X20.  A certificate-response that comes after [GetCertificate] has
    given up is still cached by the dispatch loop: the next call returns
    the certificate without a request, and the copy put on the channel is
    left there. *)
Theorem late_certificate_is_cached w t p s crt :
  remoteCertificate (c w) = None ->
  remoteCertificateChan (c w) = None ->
  closed (conn (c w)) = false ->
  incoming w = [(t, Decoded (mkMessage ResponseCertificate p))] ->
  now w + 10 * Second <= t ->
  t < now w + 10 * Second + s ->
  cert_ParseRawCardCertificate p = inr crt ->
  let w2 := snd (Sleep s (snd (GetCertificate w))) in
  fst (GetCertificate w) = (None, Some ErrTimeout) /\
  GetCertificate w2 = ((Some crt, None), w2) /\
  remoteCertificateChan (c w2) = Some crt.
Proof.
  intros Hc He Hcl Hin Ht1 Ht2 Hp.
  assert (Hq : quiet (now w + 10 * Second) (incoming w) = true).
  { rewrite Hin. simpl. now apply Z.leb_le. }
  assert (HG : GetCertificate w
               = ((None, Some ErrTimeout),
                  set_now (now w + 10 * Second)
                    (mkWorld (wrote RequestCertificate [] (c w)) (now w)
                       (incoming w)
                       (logged w ++ [(LDebug, [string_of_list_byte []])])))).
  { unfold GetCertificate, sendMessage, bind, read, ret, modify, log, upd_c.
    cbn [fst snd c now incoming logged]. rewrite Hc.
    rewrite select_quiet; [reflexivity | | exact Hq].
    cbn [c get_chan remoteCertificateChan_].
    rewrite wrote_keeps by reflexivity. exact He. }
  intros w2. subst w2. rewrite HG. cbn [fst snd].
  split; [reflexivity|].
  unfold Sleep. cbn [fst snd now incoming set_now]. rewrite Hin.
  erewrite await_one_then_quiet; cycle 1.
  - reflexivity.
  - exact Ht2.
  - cbn [c set_now]. now apply wrote_open.
  - unfold_handlers. unfold set_now, set_incoming. simpl. rewrite Hp.
    rewrite Hcl. simpl. rewrite He. reflexivity.
  - reflexivity.
  - reflexivity.
  - cbn [fst snd]. split; [|reflexivity].
    apply GetCertificate_cached. reflexivity.
Qed.

End RemoteRoundTrips.

Section RemoteLatency.
Import Remote.
Context {E : Collaborators}.

Lemma await_now {T} (ch : ChanRef T) d fr w :
  now w <= d ->
  now w <= now (snd (await ch d fr w)) <= d.
Proof.
  revert w. induction fr as [|[t f] rest IH]; intros w Hn; simpl.
  - destruct (chan_take (get_chan ch (c w))) as [[v ch']|]; simpl; lia.
  - destruct (chan_take (get_chan ch (c w))) as [[v ch']|]; simpl; [lia|].
    destruct (d <=? t) eqn:Hle; simpl; [lia|].
    destruct (closed (conn (c w))); simpl; [lia|].
    destruct f as [m|]; simpl; [|lia].
    destruct (process m _) as [w'|] eqn:Hp; simpl; [|lia].
    apply process_now_incoming in Hp. destruct Hp as [Hn' _].
    simpl in Hn'. apply Z.leb_gt in Hle.
    specialize (IH w'). lia.
Qed.

Lemma within_select {T} (ch : ChanRef T) d :
  0 <= d -> within d (select_recv ch d).
Proof. intros Hd w. unfold select_recv. apply await_now. lia. Qed.

Lemma within_bind {A B} D1 D2 (m : M A) (k : A -> M B) :
  within D1 m -> (forall a, within D2 (k a)) -> within (D1 + D2) (bind m k).
Proof.
  intros Hm Hk w. unfold bind. specialize (Hm w).
  destruct (m w) as [a w1]. simpl in Hm. specialize (Hk a w1). lia.
Qed.

Lemma within_after {A B} D (m : M A) (k : A -> M B) :
  within 0 m -> (forall a, within D (k a)) -> within D (bind m k).
Proof.
  intros Hm Hk w. pose proof (within_bind 0 D m k Hm Hk w). lia.
Qed.

Lemma within_instant {A} (m : M A) :
  (forall w, now (snd (m w)) = now w) -> within 0 m.
Proof. intros H w. rewrite H. lia. Qed.

Lemma within_more {A} D D' (m : M A) : D <= D' -> within D m -> within D' m.
Proof. intros Hle Hm w. specialize (Hm w). lia. Qed.

Lemma within_sendMessage n p : within 0 (sendMessage n p).
Proof. apply within_instant. reflexivity. Qed.

Ltac instant := apply within_instant; reflexivity.

Lemma within_wait_then {B T} (ch : ChanRef T) D (k : option T -> M B) :
  0 <= D ->
  (forall a, within 0 (k a)) -> within D (bind (select_recv ch D) k).
Proof.
  intros HD Hk w.
  pose proof (within_bind D 0 (select_recv ch D) k (within_select ch D HD) Hk w).
  lia.
Qed.

(** X21.  No call blocks for good: every method returns within ten
    seconds of being called, [ConnectToCard] within twenty, and the clock
    never runs backwards. *)
Theorem calls_return_in_time k w :
  0 <= longest k ->
  now w <= now (exec k w) <= now w + longest k.
Proof.
  intros Hk. assert (H10 : 0 <= 10 * Second) by (vm_compute; discriminate).
  destruct k; simpl in *.
  - revert w. change (within (10 * Second) (Identify nonce)).
    unfold Identify.
    apply within_after; [instant | intros _].
    apply within_after; [apply within_sendMessage | intros _].
    apply within_wait_then; [exact H10 | intros [v|]; instant].
  - revert w. change (within (10 * Second) (CardPair initPairingData)).
    unfold CardPair.
    apply within_after; [apply within_sendMessage | intros _].
    apply within_wait_then; [exact H10 | intros [v|]; instant].
  - lia.
  - revert w. change (within (10 * Second) (FinalizeCardPair cardPair2Data)).
    unfold FinalizeCardPair.
    apply within_after; [apply within_sendMessage | intros _].
    apply within_after; [instant | intros pf].
    destruct (negb pf).
    + apply within_wait_then; [exact H10 | intros [v|]; [|instant]].
      destruct (0 <? Z.of_nat (List.length v)); instant.
    + apply within_more with 0; [exact H10 | instant].
  - revert w. change (within (10 * Second) GetCertificate).
    unfold GetCertificate.
    apply within_after; [instant | intros [crt|]].
    + apply within_more with 0; [exact H10 | instant].
    + apply within_after; [apply within_sendMessage | intros _].
      apply within_wait_then; [exact H10 | intros [v|]; instant].
  - revert w.
    change (within (10 * Second + 10 * Second) (ConnectToCard cardID)).
    assert (Hreq : within (10 * Second) (ConnectToCard_request cardID)).
    { unfold ConnectToCard_request.
      apply within_after; [instant | intros _].
      apply within_after; [apply within_sendMessage | intros _].
      apply within_wait_then; [exact H10 | intros [v|]; instant]. }
    unfold ConnectToCard.
    apply within_after; [instant | intros ids].
    destruct (negb ids).
    + apply within_bind; [now apply within_select | intros [v|]].
      * apply within_after; [instant | intros _]. exact Hreq.
      * apply within_more with 0; [exact H10 | instant].
    + apply within_more with (10 * Second); [vm_compute; discriminate | exact Hreq].
  - revert w. change (within (10 * Second) (ReceivePhonons PhononTransfer)).
    unfold ReceivePhonons.
    apply within_after; [apply within_sendMessage | intros _].
    apply within_wait_then; [exact H10 | intros [v|]; instant].
  - lia.
  - lia.
  - unfold Sleep. simpl. apply await_now. lia.
Qed.

End RemoteLatency.

Section RemoteMoreRuns.
Import Remote.

Lemma process_blocks_iff_stuck_witness :
  stuck (mkMessage MessageIdentifiedWithServer []) (c identified) = true /\
  process (mkMessage MessageIdentifiedWithServer []) identified = None.
Proof.
  assert (H : stuck (mkMessage MessageIdentifiedWithServer []) (c identified)
              = true) by reflexivity.
  split; [exact H|].
  exact (proj2 (process_blocks_iff_stuck (E := sim)
                  (mkMessage MessageIdentifiedWithServer []) identified) H).
Defined.

Lemma blocked_loop_times_out_witness :
  waits (DoCardPair [x01]) (c notified_twice) = true /\
  closed (conn (c notified_twice)) = false /\
  incoming notified_twice
  = [(0, Decoded (mkMessage MessageIdentifiedWithServer []))] /\
  stuck (mkMessage MessageIdentifiedWithServer []) (c notified_twice) = true /\
  result (DoCardPair [x01]) notified_twice = Some ErrTimeout /\
  incoming (exec (DoCardPair [x01]) notified_twice) = incoming notified_twice.
Proof.
  assert (H1 : waits (DoCardPair [x01]) (c notified_twice) = true)
    by reflexivity.
  assert (H2 : closed (conn (c notified_twice)) = false) by reflexivity.
  assert (H3 : incoming notified_twice
               = [(0, Decoded (mkMessage MessageIdentifiedWithServer []))])
    by reflexivity.
  assert (H4 : stuck (mkMessage MessageIdentifiedWithServer [])
                 (c notified_twice) = true) by reflexivity.
  destruct (blocked_loop_times_out (E := sim) (DoCardPair [x01]) notified_twice
              0 (mkMessage MessageIdentifiedWithServer []) [] H1 H2 H3 H4)
    as (H5 & _ & H6).
  repeat split; assumption.
Defined.

Lemma malformed_frame_ends_loop_witness :
  waits (DoCardPair [x01]) (c garbled) = true /\
  closed (conn (c garbled)) = false /\
  incoming garbled
  = (Second, Malformed)
    :: [(2 * Second, Decoded (mkMessage ResponseCardPair1 [x2a]))] /\
  Second < now garbled + 10 * Second /\
  result (DoCardPair [x01]) garbled = Some ErrTimeout /\
  incoming (exec (DoCardPair [x01]) garbled) = [].
Proof.
  assert (H1 : waits (DoCardPair [x01]) (c garbled) = true) by reflexivity.
  assert (H2 : closed (conn (c garbled)) = false) by reflexivity.
  assert (H3 : incoming garbled
               = (Second, Malformed)
                 :: [(2 * Second, Decoded (mkMessage ResponseCardPair1 [x2a]))])
    by reflexivity.
  assert (H4 : Second < now garbled + 10 * Second) by (vm_compute; reflexivity).
  destruct (malformed_frame_ends_loop (E := sim) (DoCardPair [x01]) garbled
              Second _ H1 H2 H3 H4) as (H5 & H6 & _).
  repeat split; assumption.
Defined.


Lemma process_answers_once_witness :
  process (mkMessage RequestIdentify nonce1) challenged
  = Some (snd (sendIdentify (mkMessage RequestIdentify nonce1) challenged)) /\
  written (conn (c (snd (sendIdentify (mkMessage RequestIdentify nonce1)
                           challenged))))
  = written (conn (c challenged))
    ++ answers (mkMessage RequestIdentify nonce1) challenged.
Proof.
  assert (H1 : process (mkMessage RequestIdentify nonce1) challenged
               = Some (snd (sendIdentify (mkMessage RequestIdentify nonce1)
                              challenged))) by reflexivity.
  split; [exact H1|].
  exact (proj1 (process_answers_once (E := sim) _ _ _ H1)).
Defined.


Lemma CardPair_takes_stale_reply_witness :
  cardPair1DataChan (c answered_early) = Some [x2a] /\
  fst (CardPair [x01] answered_early) = ([x2a], None) /\
  now (snd (CardPair [x01] answered_early)) = now answered_early.
Proof.
  assert (H1 : cardPair1DataChan (c answered_early) = Some [x2a])
    by reflexivity.
  destruct (CardPair_takes_stale_reply (E := sim) [x01] answered_early [x2a] H1)
    as (H2 & H3 & _).
  repeat split; assumption.
Defined.

Lemma CardPair_round_trip_witness :
  let wA := answered_by_peer (mkMessage RequestCardPair1 [x01]) in
  closed (conn (c peer)) = false /\
  cardPair1DataChan (c wA) = None /\
  closed (conn (c wA)) = false /\
  incoming wA
  = delivered Second (answers (mkMessage RequestCardPair1 [x01]) peer) /\
  Second < now wA + 10 * Second /\
  fst (CardPair [x01] wA) = ([x01], None).
Proof.
  intros wA.
  assert (H1 : closed (conn (c peer)) = false) by reflexivity.
  assert (H2 : cardPair1DataChan (c wA) = None) by reflexivity.
  assert (H3 : closed (conn (c wA)) = false) by reflexivity.
  assert (H4 : incoming wA
               = delivered Second
                   (answers (mkMessage RequestCardPair1 [x01]) peer))
    by reflexivity.
  assert (H5 : Second < now wA + 10 * Second) by (vm_compute; reflexivity).
  repeat (split; [assumption|]).
  exact (CardPair_round_trip (E := sim) [x01] wA peer Second H1 H2 H3 H4 H5).
Defined.

Lemma FinalizeCardPair_round_trip_witness :
  let wA := answered_by_peer (mkMessage RequestFinalizeCardPair []) in
  closed (conn (c peer)) = false /\
  pairFinalized (c wA) = false /\
  finalizeCardPairDataChan (c wA) = None /\
  closed (conn (c wA)) = false /\
  incoming wA
  = delivered Second (answers (mkMessage RequestFinalizeCardPair []) peer) /\
  Second < now wA + 10 * Second /\
  fst (FinalizeCardPair [] wA) = Some (errors_New "no pairing data").
Proof.
  intros wA.
  assert (H1 : closed (conn (c peer)) = false) by reflexivity.
  assert (H2 : pairFinalized (c wA) = false) by reflexivity.
  assert (H3 : finalizeCardPairDataChan (c wA) = None) by reflexivity.
  assert (H4 : closed (conn (c wA)) = false) by reflexivity.
  assert (H5 : incoming wA
               = delivered Second
                   (answers (mkMessage RequestFinalizeCardPair []) peer))
    by reflexivity.
  assert (H6 : Second < now wA + 10 * Second) by (vm_compute; reflexivity).
  repeat (split; [assumption|]).
  exact (FinalizeCardPair_round_trip (E := sim) [] wA peer Second
           H1 H2 H3 H4 H5 H6).
Defined.

Lemma ReceivePhonons_round_trip_witness :
  let wA := answered_by_peer (mkMessage RequestReceivePhonon [x01]) in
  closed (conn (c peer)) = false /\
  phononAckChan (c wA) = None /\
  closed (conn (c wA)) = false /\
  incoming wA
  = delivered Second (answers (mkMessage RequestReceivePhonon [x01]) peer) /\
  Second < now wA + 10 * Second /\
  fst (ReceivePhonons [x01] wA) = None.
Proof.
  intros wA.
  assert (H1 : closed (conn (c peer)) = false) by reflexivity.
  assert (H2 : phononAckChan (c wA) = None) by reflexivity.
  assert (H3 : closed (conn (c wA)) = false) by reflexivity.
  assert (H4 : incoming wA
               = delivered Second
                   (answers (mkMessage RequestReceivePhonon [x01]) peer))
    by reflexivity.
  assert (H5 : Second < now wA + 10 * Second) by (vm_compute; reflexivity).
  repeat (split; [assumption|]).
  exact (ReceivePhonons_round_trip (E := sim) [x01] wA peer Second
           H1 H2 H3 H4 H5).
Defined.

Lemma GetCertificate_round_trip_witness :
  let wA := answered_by_peer (mkMessage RequestCertificate []) in
  closed (conn (c peer)) = false /\
  remoteCertificate (c wA) = None /\
  remoteCertificateChan (c wA) = None /\
  closed (conn (c wA)) = false /\
  incoming wA
  = delivered Second (answers (mkMessage RequestCertificate []) peer) /\
  Second < now wA + 10 * Second /\
  fst (GetCertificate wA) = (Some [byte_of_Z 9], None).
Proof.
  intros wA.
  assert (H1 : closed (conn (c peer)) = false) by reflexivity.
  assert (H2 : remoteCertificate (c wA) = None) by reflexivity.
  assert (H3 : remoteCertificateChan (c wA) = None) by reflexivity.
  assert (H4 : closed (conn (c wA)) = false) by reflexivity.
  assert (H5 : incoming wA
               = delivered Second
                   (answers (mkMessage RequestCertificate []) peer))
    by reflexivity.
  assert (H6 : Second < now wA + 10 * Second) by (vm_compute; reflexivity).
  repeat (split; [assumption|]).
  exact (proj1 (GetCertificate_round_trip (E := sim) wA peer Second
                  H1 H2 H3 H4 H5 H6)).
Defined.

Lemma late_certificate_is_cached_witness :
  let w2 := snd (Sleep (2 * Second) (snd (GetCertificate certificate_late))) in
  remoteCertificate (c certificate_late) = None /\
  remoteCertificateChan (c certificate_late) = None /\
  closed (conn (c certificate_late)) = false /\
  incoming certificate_late
  = [(11 * Second, Decoded (mkMessage ResponseCertificate [x2a]))] /\
  now certificate_late + 10 * Second <= 11 * Second /\
  11 * Second < now certificate_late + 10 * Second + 2 * Second /\
  cert_ParseRawCardCertificate (Collaborators := sim) [x2a] = inr [x2a] /\
  fst (GetCertificate certificate_late) = (None, Some ErrTimeout) /\
  GetCertificate w2 = ((Some [x2a], None), w2).
Proof.
  intros w2.
  assert (H1 : remoteCertificate (c certificate_late) = None) by reflexivity.
  assert (H2 : remoteCertificateChan (c certificate_late) = None)
    by reflexivity.
  assert (H3 : closed (conn (c certificate_late)) = false) by reflexivity.
  assert (H4 : incoming certificate_late
               = [(11 * Second, Decoded (mkMessage ResponseCertificate [x2a]))])
    by reflexivity.
  assert (H5 : now certificate_late + 10 * Second <= 11 * Second)
    by (vm_compute; discriminate).
  assert (H6 : 11 * Second < now certificate_late + 10 * Second + 2 * Second)
    by (vm_compute; reflexivity).
  assert (H7 : cert_ParseRawCardCertificate (Collaborators := sim) [x2a]
               = inr [x2a]) by reflexivity.
  destruct (late_certificate_is_cached (E := sim) certificate_late
              (11 * Second) [x2a] (2 * Second) [x2a] H1 H2 H3 H4 H5 H6 H7)
    as (H8 & H9 & _).
  repeat split; assumption.
Defined.

Lemma calls_return_in_time_witness :
  0 <= longest (DoConnectToCard "card-B") /\
  now identified <= now (exec (DoConnectToCard "card-B") identified)
  <= now identified + longest (DoConnectToCard "card-B").
Proof.
  assert (H1 : 0 <= longest (DoConnectToCard "card-B"))
    by (vm_compute; discriminate).
  split; [exact H1|].
  exact (calls_return_in_time (E := sim) (DoConnectToCard "card-B") identified H1).
Defined.

End RemoteMoreRuns.

(** * More about the validator *)

Section ValidatorBalance.
Import Validator.
Context {V : Services}.

Lemma int64_range z : in_int64 (int64 z).
Proof.
  unfold in_int64, int64.
  assert (H : 0 <= (z + 2 ^ 63) mod 2 ^ 64 < 2 ^ 64)
    by (apply Z.mod_pos_bound; reflexivity).
  change (2 ^ 64) with (2 * 2 ^ 63) in *.
  lia.
Qed.

Lemma int64_exact z : in_int64 z -> int64 z = z.
Proof.
  unfold in_int64, int64. intros H.
  rewrite Z.mod_small; [lia|].
  change (2 ^ 64) with (2 * 2 ^ 63). lia.
Qed.

Lemma int64_add a b : int64 (int64 a + b) = int64 (a + b).
Proof.
  unfold int64. f_equal.
  replace ((a + 2 ^ 63) mod 2 ^ 64 - 2 ^ 63 + b + 2 ^ 63)
    with ((a + 2 ^ 63) mod 2 ^ 64 + b) by lia.
  rewrite Zplus_mod_idemp_l. f_equal; lia.
Qed.

Lemma int64_idem a : int64 (int64 a) = int64 a.
Proof.
  replace (int64 a) with (int64 a + 0) at 1 by lia.
  rewrite int64_add. f_equal; lia.
Qed.

Lemma credit_sum addresses acc o :
  credit addresses (int64 acc) o
  = int64 (acc + occurrences (Address o) addresses * Value o).
Proof.
  unfold credit. revert acc.
  induction addresses as [|x rest IH]; intros acc; simpl.
  - f_equal; lia.
  - destruct (String.eqb (Address o) x).
    + rewrite int64_add, IH. f_equal; lia.
    + rewrite IH. f_equal; lia.
Qed.

Lemma debit_sum addresses acc i :
  debit addresses (int64 acc) i
  = int64 (acc - occurrences (Coin_Address (input_Coin i)) addresses
                 * Coin_Value (input_Coin i)).
Proof.
  unfold debit. revert acc.
  induction addresses as [|x rest IH]; intros acc; simpl.
  - f_equal; lia.
  - destruct (String.eqb (Coin_Address (input_Coin i)) x).
    + replace (int64 acc - Coin_Value (input_Coin i))
        with (int64 acc + - Coin_Value (input_Coin i)) by lia.
      rewrite int64_add, IH. f_equal; lia.
    + rewrite IH. f_equal; lia.
Qed.

Lemma credits_sum addresses outs acc :
  fold_left (credit addresses) outs (int64 acc)
  = int64 (acc + fold_right
                   (fun o s => occurrences (Address o) addresses * Value o + s)
                   0 outs).
Proof.
  revert acc. induction outs as [|o outs IH]; intros acc; simpl.
  - f_equal; lia.
  - rewrite credit_sum, IH. f_equal; lia.
Qed.

Lemma debits_sum addresses ins acc :
  fold_left (debit addresses) ins (int64 acc)
  = int64 (acc - fold_right
                   (fun i s =>
                      occurrences (Coin_Address (input_Coin i)) addresses
                      * Coin_Value (input_Coin i) + s)
                   0 ins).
Proof.
  revert acc. induction ins as [|i ins IH]; intros acc; simpl.
  - f_equal; lia.
  - rewrite debit_sum, IH. f_equal; lia.
Qed.

Lemma aggregate_from addresses txl acc :
  fold_left (fun runningTotal tx =>
     fold_left (credit addresses) (Outputs tx)
       (fold_left (debit addresses) (Inputs tx) runningTotal))
    txl (int64 acc)
  = int64 (acc + net_flow addresses txl).
Proof.
  revert acc. induction txl as [|tx txl IH]; intros acc; simpl.
  - f_equal; lia.
  - rewrite debits_sum, credits_sum, IH. f_equal. unfold flow. lia.
Qed.

(** X1.  [aggregateTransactions] never fails, and its total is the net flow
    of the listed transactions into the given addresses, wrapped to
    [int64]: each output adds and each spent coin subtracts its value once
    for every entry of [addresses] equal to its address. *)
Theorem aggregateTransactions_net_flow txl addresses :
  aggregateTransactions txl addresses
  = (int64 (net_flow addresses txl), None).
Proof.
  unfold aggregateTransactions. f_equal.
  change 0 with (int64 0) at 1.
  rewrite aggregate_from. f_equal.
Qed.

Lemma occurrences_nonneg a addresses : 0 <= occurrences a addresses.
Proof.
  induction addresses as [|x rest IH]; simpl; [lia|].
  destruct (String.eqb a x); lia.
Qed.

Lemma occurrences_absent a addresses :
  ~ In a addresses -> occurrences a addresses = 0.
Proof.
  induction addresses as [|x rest IH]; simpl; intros H; [reflexivity|].
  destruct (String.eqb_spec a x) as [->|Hne].
  - exfalso. apply H. now left.
  - rewrite IH; [reflexivity|]. intros Hin. apply H. now right.
Qed.

Lemma occurrences_NoDup a addresses :
  NoDup addresses ->
  occurrences a addresses = if owned addresses a then 1 else 0.
Proof.
  unfold owned. induction 1 as [|x rest Hx Hnd IH]; simpl; [reflexivity|].
  destruct (String.eqb_spec a x) as [->|Hne]; simpl.
  - rewrite occurrences_absent by assumption. reflexivity.
  - rewrite IH. reflexivity.
Qed.

Lemma net_flow_NoDup addresses txl :
  NoDup addresses -> net_flow addresses txl = net_owned addresses txl.
Proof.
  intros Hnd. induction txl as [|tx txl IH]; simpl; [reflexivity|].
  rewrite IH. f_equal. unfold flow, received, spent. f_equal.
  - induction (Outputs tx) as [|o outs IHo]; simpl; [reflexivity|].
    rewrite IHo, (occurrences_NoDup _ _ Hnd).
    destruct (owned addresses (Address o)); lia.
  - induction (Inputs tx) as [|i ins IHi]; simpl; [reflexivity|].
    rewrite IHi, (occurrences_NoDup _ _ Hnd).
    destruct (owned addresses (Coin_Address (input_Coin i))); lia.
Qed.

(** X2.  When the addresses are pairwise distinct and the true balance
    fits [int64], [aggregateTransactions] returns exactly the outputs paid
    to the addresses minus the coins spent from them. *)
Theorem aggregateTransactions_exact txl addresses :
  NoDup addresses ->
  in_int64 (net_owned addresses txl) ->
  fst (aggregateTransactions txl addresses) = net_owned addresses txl.
Proof.
  intros Hnd Hr. unfold aggregateTransactions. simpl.
  change 0 with (int64 0) at 1. rewrite aggregate_from. simpl.
  rewrite (net_flow_NoDup _ _ Hnd). now apply int64_exact.
Qed.

Lemma net_flow_app addresses l1 l2 :
  net_flow addresses (l1 ++ l2)
  = net_flow addresses l1 + net_flow addresses l2.
Proof.
  induction l1 as [|tx l1 IH]; simpl; [reflexivity|]. rewrite IH. lia.
Qed.

Lemma pubKeyToAddresses_five key addresses :
  pubKeyToAddresses key = inr addresses -> List.length addresses = 5%nat.
Proof.
  unfold pubKeyToAddresses, and_then.
  repeat match goal with
  | |- context [match ?x with inl _ => _ | inr _ => _ end] =>
      destruct x; try discriminate
  end.
  intros H. inversion H. reflexivity.
Qed.

Lemma getBalance_of fuel url addresses got :
  GetTransactions fuel url addresses = Some got ->
  getBalance fuel url addresses
  = Some (int64 (net_flow addresses
                   (match got with inl _ => [] | inr txl => txl end)),
          None).
Proof.
  intros Hg. unfold getBalance. rewrite Hg.
  unfold aggregateTransactions.
  change 0 with (int64 0) at 1. rewrite aggregate_from. reflexivity.
Qed.

Lemma GetTransactions_loop_short fuel url addresses ret :
  Forall (short_page url) addresses ->
  GetTransactions_loop fuel url addresses ret
  = Some (inr (ret ++ flat_map (page url) addresses)).
Proof.
  intros Hs. revert ret.
  induction Hs as [|a rest (p & Hp & Hl) _ IH]; intros ret; simpl.
  - now rewrite app_nil_r.
  - unfold page at 1. rewrite Hp.
    replace (more_pages fuel url a (ret ++ p) p)
      with (Some (inr (ret ++ p) : error + transactionList)).
    + rewrite IH. now rewrite <- app_assoc.
    + destruct fuel; simpl;
        destruct (Z.of_nat (List.length p) =? transactionRequestLimit) eqn:Heq;
        try reflexivity; apply Z.eqb_eq in Heq; contradiction.
Qed.

(** X3.  When the first page of every address is served and is not full,
    [GetTransactions] makes no further request and returns the pages
    concatenated in the order of the addresses, whatever the fuel. *)
Theorem GetTransactions_short_pages fuel url addresses :
  Forall (short_page url) addresses ->
  GetTransactions fuel url addresses
  = Some (inr (flat_map (page url) addresses)).
Proof.
  intros Hs. unfold GetTransactions.
  now rewrite (GetTransactions_loop_short fuel url addresses [] Hs).
Qed.

(** X4.  With short pages, [Validate] answers true exactly when the wrapped
    net flow over the concatenation of the per-address pages is not zero:
    a transaction served for two of the key's addresses is counted
    twice, and the stated value plays no part. *)
Theorem Validate_short_pages fuel url phonon addresses :
  pubKeyToAddresses (PubKey phonon) = inr addresses ->
  Forall (short_page url) addresses ->
  Validate fuel url phonon
  = Some (negb (int64 (net_flow addresses (flat_map (page url) addresses)) =? 0),
          None).
Proof.
  intros Ha Hs. unfold Validate. rewrite Ha.
  rewrite (getBalance_of fuel url addresses
             (inr (flat_map (page url) addresses))).
  - destruct (int64 _ =? 0); reflexivity.
  - unfold GetTransactions.
    now rewrite (GetTransactions_loop_short fuel url addresses [] Hs).
Qed.

(** X5.  An error of the indexer is swallowed: when [GetTransactions]
    fails, [getBalance] reports balance 0 without an error, and [Validate]
    answers "not backed" without an error. *)
Theorem indexer_error_is_swallowed fuel url phonon addresses e :
  pubKeyToAddresses (PubKey phonon) = inr addresses ->
  GetTransactions fuel url addresses = Some (inl e) ->
  getBalance fuel url addresses = Some (0, None) /\
  Validate fuel url phonon = Some (false, None).
Proof.
  intros Ha Hg.
  assert (Hb : getBalance fuel url addresses = Some (0, None))
    by (rewrite (getBalance_of fuel url addresses (inl e) Hg); reflexivity).
  split; [exact Hb|]. unfold Validate. rewrite Ha, Hb. reflexivity.
Qed.

(** X6.  The only error [Validate] returns is the one of the address
    derivation, and it comes with the answer false. *)
Theorem Validate_error_is_derivation fuel url phonon b e :
  Validate fuel url phonon = Some (b, Some e) ->
  b = false /\ pubKeyToAddresses (PubKey phonon) = inl e.
Proof.
  unfold Validate.
  destruct (pubKeyToAddresses (PubKey phonon)) as [e'|addresses].
  - intros H. inversion H. auto.
  - destruct (GetTransactions fuel url addresses) as [got|] eqn:Hg.
    + rewrite (getBalance_of fuel url addresses got Hg).
      destruct (int64 _ =? 0); discriminate.
    + unfold getBalance. rewrite Hg. discriminate.
Qed.

(** X7.  Paging: when the first page of an address is full and the page
    after its last transaction is not, [GetTransactions] asks for that
    next page, naming the hash of the last transaction received, and
    returns both pages in order. *)
Theorem GetTransactions_second_page fuel url a p1 p2 :
  getTransactionList (first_page url a) = inr p1 ->
  Z.of_nat (List.length p1) = transactionRequestLimit ->
  getTransactionList (next_page url a (last_hash p1)) = inr p2 ->
  Z.of_nat (List.length p2) <> transactionRequestLimit ->
  GetTransactions (Datatypes.S fuel) url [a] = Some (inr (p1 ++ p2)).
Proof.
  intros H1 L1 H2 L2. unfold GetTransactions. simpl.
  rewrite H1. simpl.
  apply Z.eqb_eq in L1. rewrite L1, H2.
  replace (more_pages fuel url a (p1 ++ p2) p2)
    with (Some (inr (p1 ++ p2) : error + transactionList)); [reflexivity|].
  destruct fuel; simpl;
    destruct (Z.of_nat (List.length p2) =? transactionRequestLimit) eqn:Heq;
    try reflexivity; apply Z.eqb_eq in Heq; contradiction.
Qed.

Lemma more_pages_never_ends fuel url a ret listPart :
  (forall u, exists p,
     getTransactionList u = inr p /\
     Z.of_nat (List.length p) = transactionRequestLimit) ->
  Z.of_nat (List.length listPart) = transactionRequestLimit ->
  more_pages fuel url a ret listPart = None.
Proof.
  intros Hfull. revert ret listPart.
  induction fuel as [|fuel IH]; intros ret listPart Hl; simpl;
    apply Z.eqb_eq in Hl; rewrite Hl; [reflexivity|].
  destruct (Hfull (next_page url a (last_hash ret))) as (p & Hp & Hlp).
  rewrite Hp. now apply IH.
Qed.

(** X8.  The paging loop has no bound: against an indexer whose every
    answer is a full page, [GetTransactions] does not return for any
    non-empty list of addresses, and neither does [Validate]. *)
Theorem full_pages_never_return fuel url phonon addresses :
  (forall u, exists p,
     getTransactionList u = inr p /\
     Z.of_nat (List.length p) = transactionRequestLimit) ->
  pubKeyToAddresses (PubKey phonon) = inr addresses ->
  GetTransactions fuel url addresses = None /\
  Validate fuel url phonon = None.
Proof.
  intros Hfull Ha.
  assert (Hg : GetTransactions fuel url addresses = None).
  { pose proof (pubKeyToAddresses_five _ _ Ha) as H5.
    destruct addresses as [|a rest]; [discriminate H5|].
    unfold GetTransactions. simpl.
    destruct (Hfull (first_page url a)) as (p & Hp & Hl).
    rewrite Hp. now rewrite (more_pages_never_ends fuel url a _ p Hfull Hl). }
  split; [exact Hg|].
  unfold Validate, getBalance. rewrite Ha, Hg. reflexivity.
Qed.

End ValidatorBalance.

Section ValidatorMoreRuns.
Import Validator.

Lemma sim_addresses_NoDup : NoDup sim_addresses.
Proof.
  unfold sim_addresses.
  repeat (constructor; [simpl; intuition discriminate|]). constructor.
Qed.

Lemma aggregateTransactions_exact_witness :
  NoDup sim_addresses /\
  in_int64 (net_owned sim_addresses [sim_tx]) /\
  fst (aggregateTransactions [sim_tx] sim_addresses)
  = net_owned sim_addresses [sim_tx].
Proof.
  assert (H1 : NoDup sim_addresses) by exact sim_addresses_NoDup.
  assert (H2 : in_int64 (net_owned sim_addresses [sim_tx])).
  { split; vm_compute; [discriminate | reflexivity]. }
  repeat (split; [assumption|]).
  exact (aggregateTransactions_exact [sim_tx] sim_addresses H1 H2).
Defined.

Lemma sim_short_pages :
  Forall (short_page (V := sim_chain) "http://bcoin") sim_addresses.
Proof.
  unfold sim_addresses.
  repeat (constructor;
          [eexists; split; [reflexivity | vm_compute; discriminate]|]).
  constructor.
Qed.

Lemma GetTransactions_short_pages_witness :
  Forall (short_page (V := sim_chain) "http://bcoin") sim_addresses /\
  GetTransactions (V := sim_chain) 0 "http://bcoin" sim_addresses
  = Some (inr (flat_map (page (V := sim_chain) "http://bcoin") sim_addresses)).
Proof.
  split; [exact sim_short_pages|].
  exact (GetTransactions_short_pages (V := sim_chain) 0 "http://bcoin"
           sim_addresses sim_short_pages).
Defined.

Lemma Validate_short_pages_witness :
  let phonon := mkPhonon (V := sim_chain) tt 100 in
  pubKeyToAddresses (V := sim_chain) (PubKey phonon) = inr sim_addresses /\
  Forall (short_page (V := sim_chain) "http://bcoin") sim_addresses /\
  Validate (V := sim_chain) 0 "http://bcoin" phonon
  = Some (negb (int64 (net_flow sim_addresses
                         (flat_map (page (V := sim_chain) "http://bcoin")
                            sim_addresses)) =? 0),
          None).
Proof.
  intros phonon.
  assert (H1 : pubKeyToAddresses (V := sim_chain) (PubKey phonon)
               = inr sim_addresses) by reflexivity.
  split; [exact H1|]. split; [exact sim_short_pages|].
  exact (Validate_short_pages (V := sim_chain) 0 "http://bcoin" phonon
           sim_addresses H1 sim_short_pages).
Defined.

Lemma indexer_error_is_swallowed_witness :
  let phonon := mkPhonon (V := sim_chain_down) tt 100 in
  pubKeyToAddresses (V := sim_chain_down) (PubKey phonon)
  = inr sim_addresses /\
  GetTransactions (V := sim_chain_down) 0 "http://bcoin"
    sim_addresses
  = Some (inl (errors_New "connection refused")) /\
  Validate (V := sim_chain_down) 0 "http://bcoin" phonon = Some (false, None).
Proof.
  intros phonon.
  assert (H1 : pubKeyToAddresses (V := sim_chain_down) (PubKey phonon)
               = inr sim_addresses)
    by reflexivity.
  assert (H2 : GetTransactions (V := sim_chain_down) 0 "http://bcoin"
                 sim_addresses
               = Some (inl (errors_New "connection refused"))) by reflexivity.
  repeat (split; [assumption|]).
  exact (proj2 (indexer_error_is_swallowed (V := sim_chain_down) 0 "http://bcoin"
                  phonon _ _ H1 H2)).
Defined.

Lemma Validate_error_is_derivation_witness :
  let phonon := mkPhonon (V := sim_chain_badkey) tt 100 in
  Validate (V := sim_chain_badkey) 0 "http://bcoin" phonon
  = Some (false, Some (errors_New "invalid pubkey")) /\
  pubKeyToAddresses (V := sim_chain_badkey) (PubKey phonon)
  = inl (errors_New "invalid pubkey").
Proof.
  intros phonon.
  assert (H1 : Validate (V := sim_chain_badkey) 0 "http://bcoin" phonon
               = Some (false, Some (errors_New "invalid pubkey")))
    by reflexivity.
  split; [exact H1|].
  exact (proj2 (Validate_error_is_derivation (V := sim_chain_badkey) 0
                  "http://bcoin" phonon false _ H1)).
Defined.

Lemma GetTransactions_second_page_witness :
  getTransactionList (Services := sim_chain_paged) (first_page "http://bcoin" "a")
  = inr sim_page1 /\
  Z.of_nat (List.length sim_page1) = transactionRequestLimit /\
  getTransactionList (Services := sim_chain_paged)
    (next_page "http://bcoin" "a" (last_hash sim_page1))
  = inr [sim_tx] /\
  Z.of_nat (List.length [sim_tx]) <> transactionRequestLimit /\
  GetTransactions (V := sim_chain_paged) 1 "http://bcoin" ["a"%string]
  = Some (inr (sim_page1 ++ [sim_tx])).
Proof.
  assert (H1 : getTransactionList (Services := sim_chain_paged)
                 (first_page "http://bcoin" "a") = inr sim_page1)
    by reflexivity.
  assert (H2 : Z.of_nat (List.length sim_page1) = transactionRequestLimit)
    by reflexivity.
  assert (H3 : getTransactionList (Services := sim_chain_paged)
                 (next_page "http://bcoin" "a" (last_hash sim_page1))
               = inr [sim_tx]) by reflexivity.
  assert (H4 : Z.of_nat (List.length [sim_tx]) <> transactionRequestLimit)
    by (vm_compute; discriminate).
  repeat (split; [assumption|]).
  exact (GetTransactions_second_page (V := sim_chain_paged) 0 "http://bcoin" "a"
           sim_page1 [sim_tx] H1 H2 H3 H4).
Defined.

Lemma sim_chain_full_pages :
  forall u, exists p,
    getTransactionList (Services := sim_chain_full) u = inr p /\
    Z.of_nat (List.length p) = transactionRequestLimit.
Proof. intros u. eexists. split; reflexivity. Qed.

Lemma full_pages_never_return_witness :
  let phonon := mkPhonon (V := sim_chain_full) tt 100 in
  (forall u, exists p,
     getTransactionList (Services := sim_chain_full) u = inr p /\
     Z.of_nat (List.length p) = transactionRequestLimit) /\
  pubKeyToAddresses (V := sim_chain_full) (PubKey phonon)
  = inr sim_addresses /\
  Validate (V := sim_chain_full) 1000 "http://bcoin" phonon = None.
Proof.
  intros phonon.
  assert (H1 : pubKeyToAddresses (V := sim_chain_full) (PubKey phonon)
               = inr sim_addresses)
    by reflexivity.
  split; [exact sim_chain_full_pages|]. split; [exact H1|].
  exact (proj2 (full_pages_never_return (V := sim_chain_full) 1000
                  "http://bcoin" phonon _ sim_chain_full_pages H1)).
Defined.

End ValidatorMoreRuns.
